(** * Verification of [scqubits.core.spec_lookup]

    A shallow embedding of the [SpectrumLookup] class of scqubits
    (file [src/scqubits/core/spec_lookup.py]) and of the fragments of the
    Python runtime it relies on, followed by the properties of the lookup
    table: canonical ordering of bare labels, overlap-based assignment,
    the query interface and the out-of-sync warning decorator. *)

From Stdlib Require Import String ZArith QArith Qabs List Bool Lia Sorted.
Import ListNotations.
Local Open Scope Z_scope.

(* ================================================================== *)
(** ** Fragments of the Python runtime *)
(* ================================================================== *)

(** Exceptions that the modelled code can raise. *)
Inductive exn : Type :=
| IndexError
| ValueError
| TypeError
| AttributeError.

(** Outcome of evaluating a Python expression: a value or a raised
    exception. *)
Inductive result (A : Type) : Type :=
| Ok (a : A)
| Raise (e : exn).
Arguments Ok {A} a.
Arguments Raise {A} e.

Definition rbind {A B} (c : result A) (k : A -> result B) : result B :=
  match c with
  | Ok a => k a
  | Raise e => Raise e
  end.

Declare Scope py_scope.
Delimit Scope py_scope with py.
Notation "x <- c ;; k" := (rbind c (fun x => k))
  (at level 61, c at next level, right associativity) : py_scope.
Local Open Scope py_scope.

(** [range(n)] for an integer [n]: empty when [n <= 0]. *)
Definition range (n : Z) : list Z := map Z.of_nat (seq 0 (Z.to_nat n)).

(** [seq[i]] for a list or a one-dimensional array and an integer index:
    negative indices count from the end, anything outside
    [-len, len) raises [IndexError]. *)
Definition getitem {A} (l : list A) (i : Z) : result A :=
  let n := Z.of_nat (length l) in
  let j := if i <? 0 then i + n else i in
  if (0 <=? j) && (j <? n) then
    match nth_error l (Z.to_nat j) with
    | Some a => Ok a
    | None => Raise IndexError
    end
  else Raise IndexError.

(** Position of the first element equal to [x], counted from [i]. *)
Fixpoint find_index {A} (eqb : A -> A -> bool) (x : A) (l : list A)
  (i : nat) : option nat :=
  match l with
  | [] => None
  | y :: r => if eqb y x then Some i else find_index eqb x r (S i)
  end.

(** [list.index(x)]: first position holding a value equal to [x];
    [ValueError] when there is none. *)
Definition index {A} (eqb : A -> A -> bool) (l : list A) (x : A)
  : result Z :=
  match find_index eqb x l 0 with
  | Some i => Ok (Z.of_nat i)
  | None => Raise ValueError
  end.

(** [x in l]. *)
Definition contains {A} (eqb : A -> A -> bool) (x : A) (l : list A) : bool :=
  existsb (fun y => eqb y x) l.

(** A list comprehension whose element expression may raise. *)
Fixpoint mapM {A B} (f : A -> result B) (l : list A) : result (list B) :=
  match l with
  | [] => Ok []
  | a :: r => b <- f a ;; bs <- mapM f r ;; Ok (b :: bs)
  end.

(** [itertools.product] applied to the pools, following the reference implementation
    of the Python documentation:
    [result = [[]]; for pool in pools:
       result = [x+[y] for x in result for y in pool]]. *)
Definition product_step {A} (result : list (list A)) (pool : list A)
  : list (list A) :=
  flat_map (fun x => map (fun y => x ++ [y]) pool) result.

Definition product {A} (pools : list (list A)) : list (list A) :=
  fold_left product_step pools [[]].

(** Equality tests used by [list.index] and [in]. *)
Definition tuple_eqb (a b : list Z) : bool :=
  if list_eq_dec Z.eq_dec a b then true else false.

Definition entry_eqb (a b : option Z) : bool :=
  match a, b with
  | Some x, Some y => x =? y
  | None, None => true
  | _, _ => false
  end.

(* ================================================================== *)
(** ** Numeric arrays *)
(* ================================================================== *)

(** A two-dimensional array, stored by rows; [ncols] is the second
    component of its shape. *)
Record ndarray (A : Type) : Type := {
  ncols : nat;
  rows : list (list A)
}.
Arguments ncols {A} n.
Arguments rows {A} n.

(** Every row has the width the shape announces. *)
Definition rectangular {A} (m : ndarray A) : Prop :=
  Forall (fun r => length r = ncols m) (rows m).

(** [m[:, j]]. *)
Definition column {A} (m : ndarray A) (j : Z) : result (list A) :=
  if (- Z.of_nat (ncols m) <=? j) && (j <? Z.of_nat (ncols m)) then
    mapM (fun r => getitem r j) (rows m)
  else Raise IndexError.

(** [m[i, j]]. *)
Definition item {A} (m : ndarray A) (i j : Z) : result A :=
  r <- getitem (rows m) i ;; getitem r j.

(** Strict comparison of two finite floating-point values, seen as the
    rationals they denote. *)
Definition Qltb (x y : Q) : bool := negb (Qle_bool y x).

(** The scan of [ndarray.argmax]: [mp] is the largest value met so far and
    [max_ind] its position; a later value replaces it only when strictly
    larger. *)
Fixpoint argmax_loop (mp : Q) (max_ind : nat) (i : nat) (ip : list Q) : nat :=
  match ip with
  | [] => max_ind
  | x :: r =>
      if Qltb mp x then argmax_loop x i (S i) r
      else argmax_loop mp max_ind (S i) r
  end.

(** [a.argmax()] of a one-dimensional array; an empty array raises
    [ValueError]. *)
Definition argmax (ip : list Q) : result Z :=
  match ip with
  | [] => Raise ValueError
  | x :: r => Ok (Z.of_nat (argmax_loop x 0 1 r))
  end.

(* ================================================================== *)
(** ** Collaborators of the lookup table *)
(* ================================================================== *)

(** The numeric side that [spec_lookup.py] imports: the type of overlap
    amplitudes with [np.abs] on it (the magnitude, a finite float), the
    type of eigenenergies, the type of an eigenvector collection and
    [scqubits.utils.spectrum_utils.convert_esys_to_ndarray].  The file only
    moves energies and eigenvector collections around, so they stay
    abstract. *)
Class Backend : Type := {
  amplitude : Type;
  energy : Type;
  esys : Type;
  np_abs : amplitude -> Q;
  convert_esys_to_ndarray : esys -> ndarray amplitude
}.

(** A subsystem object, identified by its identity. *)
Definition QuantumSystem : Type := nat.

(** The part of [HilbertSpace] that [SpectrumLookup] reads.  The class is
    defined elsewhere in scqubits; its attributes are taken as data and its
    two position methods as functions. *)
Record HilbertSpace : Type := {
  subsystem_dims : list Z;
  subsystem_count : Z;
  dimension : Z;
  hs_index : QuantumSystem -> result Z;
  hs_get_subsys_index : QuantumSystem -> result Z
}.

(** A value that is either a whole table or one entry of it: what the
    bare-data queries return, depending on the subsystem. *)
Inductive table_or_entry (A : Type) : Type :=
| Whole (t : list A)
| Entry (a : A).
Arguments Whole {A} t.
Arguments Entry {A} a.

(** A warning handed to [warnings.warn]. *)
Record warning : Type := {
  message : string;
  category : string
}.

Definition out_of_sync_warning : warning := {|
  message := "Spectrum lookup data is out of sync with systems originally involved in generating it. This will generally lead to incorrect results. Consider regenerating the lookup data: <HilbertSpace>.generate_lookup() or <ParameterSweep>.run()";
  category := "Warning"
|}.

(** A computation that may call [warnings.warn] and may raise: the
    warnings issued, in order, and the outcome. *)
Definition M (A : Type) : Type := (list warning * result A)%type.

Definition lift {A} (r : result A) : M A := ([], r).

Definition mbind {A B} (c : M A) (k : A -> M B) : M B :=
  match c with
  | (w, Ok a) => let (w', r) := k a in (w ++ w', r)
  | (w, Raise e) => (w, Raise e)
  end.

Definition warn (w : warning) : M unit := ([w], Ok tt).

Definition warnings {A} (c : M A) : list warning := fst c.
Definition outcome {A} (c : M A) : result A := snd c.

Notation "x <~ c ;; k" := (mbind c (fun x => k))
  (at level 61, c at next level, right associativity) : py_scope.

(** [_generate_bare_labels]: the bare-state labels in canonical order. *)
Definition _generate_bare_labels (_hilbertspace : HilbertSpace)
  : result (list (list Z)) :=
  let dim_list := subsystem_dims _hilbertspace in
  basis_label_ranges <-
    mapM (fun subsys_index => d <- getitem dim_list subsys_index ;;
                              Ok (range d))
         (range (subsystem_count _hilbertspace)) ;;
  Ok (product basis_label_ranges).

Section Model.

Context {backend : Backend}.

(** [SpectrumData]: per parameter value, an eigenvector collection and a
    row of eigenenergies. *)
Record SpectrumData : Type := {
  param_count : Z;
  state_table : list esys;
  energy_table : list (list energy)
}.

(** The part of [ParameterSweep] that [SpectrumLookup] reads;
    [sweep_lookup_bare_specdata_list] stands for the attribute chain
    [lookup._bare_specdata_list] of the sweep. *)
Record ParameterSweep : Type := {
  sweep_hilbertspace : HilbertSpace;
  subsys_update_list : list QuantumSystem;
  sweep_get_subsys_index : QuantumSystem -> result Z;
  sweep_lookup_bare_specdata_list : list SpectrumData
}.

(** The objects that reach the [isinstance] tests. *)
Inductive pyobj : Type :=
| PySweep (s : ParameterSweep)
| PySpace (h : HilbertSpace)
| PyNone
| PyOther.

(** [obj.subsys_update_list]: only a sweep has the attribute. *)
Definition get_subsys_update_list (obj : pyobj) : result (list QuantumSystem) :=
  match obj with
  | PySweep s => Ok (subsys_update_list s)
  | _ => Raise AttributeError
  end.

(** [shared_lookup_bare_eigenstates]. *)
Definition shared_lookup_bare_eigenstates (self : pyobj) (param_index : Z)
  (subsys : QuantumSystem) (bare_specdata_list : option (list SpectrumData))
  : result (table_or_entry esys) :=
  match self with
  | PySweep s =>
      let bare_specdata_list :=
        match bare_specdata_list with
        | Some (sd :: l) => sd :: l
        | _ => sweep_lookup_bare_specdata_list s
        end in
      subsys_index <- sweep_get_subsys_index s subsys ;;
      if contains Nat.eqb subsys (subsys_update_list s) then
        sd <- getitem bare_specdata_list subsys_index ;;
        e <- getitem (state_table sd) param_index ;;
        Ok (Entry e)
      else
        sd <- getitem bare_specdata_list subsys_index ;;
        Ok (Whole (state_table sd))
  | PySpace h =>
      subsys_index <- hs_get_subsys_index h subsys ;;
      match bare_specdata_list with
      | Some l => sd <- getitem l subsys_index ;; Ok (Whole (state_table sd))
      | None => Raise TypeError
      end
  | _ => Raise TypeError
  end.

(** The state of a [SpectrumLookup] instance. *)
Record SpectrumLookup : Type := {
  _dressed_specdata : SpectrumData;
  _bare_specdata_list : list SpectrumData;
  _sweep : pyobj;
  _hilbertspace : HilbertSpace;
  _canonical_bare_labels : list (list Z);
  _dressed_indices : list (list (option Z));
  _out_of_sync : bool
}.

(** [_generate_single_mapping]; [None] stands for no assignment. *)
Definition _generate_single_mapping (_dressed_specdata : SpectrumData)
  (_hilbertspace : HilbertSpace) (param_index : Z)
  : result (list (option Z)) :=
  e <- getitem (state_table _dressed_specdata) param_index ;;
  let overlap_matrix := convert_esys_to_ndarray e in
  mapM (fun bare_basis_index =>
          col <- column overlap_matrix bare_basis_index ;;
          max_position <- argmax (map np_abs col) ;;
          a <- item overlap_matrix max_position bare_basis_index ;;
          let max_overlap := np_abs a in
          if Qltb max_overlap (1 # 2) then Ok None
          else Ok (Some max_position))
       (range (dimension _hilbertspace)).

(** [_generate_mappings]. *)
Definition _generate_mappings (_dressed_specdata : SpectrumData)
  (_hilbertspace : HilbertSpace) : result (list (list (option Z))) :=
  mapM (fun index => _generate_single_mapping _dressed_specdata
                       _hilbertspace index)
       (range (param_count _dressed_specdata)).

(** [SpectrumLookup.__init__]. *)
Definition __init__ (framework : pyobj) (dressed_specdata : SpectrumData)
  (bare_specdata_list : list SpectrumData) : result SpectrumLookup :=
  owner <- match framework with
           | PySweep s => Ok (PySweep s, sweep_hilbertspace s)
           | PySpace h => Ok (PyNone, h)
           | _ => Raise TypeError
           end ;;
  labels <- _generate_bare_labels (snd owner) ;;
  indices <- _generate_mappings dressed_specdata (snd owner) ;;
  Ok {| _dressed_specdata := dressed_specdata;
        _bare_specdata_list := bare_specdata_list;
        _sweep := fst owner;
        _hilbertspace := snd owner;
        _canonical_bare_labels := labels;
        _dressed_indices := indices;
        _out_of_sync := false |}.

(** The owning framework flags the table when the system changes. *)
Definition set_out_of_sync (self : SpectrumLookup) (flag : bool)
  : SpectrumLookup :=
  {| _dressed_specdata := _dressed_specdata self;
     _bare_specdata_list := _bare_specdata_list self;
     _sweep := _sweep self;
     _hilbertspace := _hilbertspace self;
     _canonical_bare_labels := _canonical_bare_labels self;
     _dressed_indices := _dressed_indices self;
     _out_of_sync := flag |}.

(** The decorator [check_sync_status]. *)
Definition check_sync_status {A} (func : SpectrumLookup -> M A)
  (self : SpectrumLookup) : M A :=
  _ <~ (if _out_of_sync self then warn out_of_sync_warning else lift (Ok tt)) ;;
  func self.

(** [dressed_index]. *)
Definition dressed_index (self : SpectrumLookup) (bare_labels : list Z)
  (param_index : Z) : M (option Z) :=
  check_sync_status (fun self =>
    lift match index tuple_eqb (_canonical_bare_labels self) bare_labels with
         | Raise ValueError => Ok None
         | Raise e => Raise e
         | Ok lookup_position =>
             l <- getitem (_dressed_indices self) param_index ;;
             d <- getitem l lookup_position ;;
             Ok d
         end) self.

(** [bare_index]. *)
Definition bare_index (self : SpectrumLookup) (dressed_index : option Z)
  (param_index : Z) : M (option (list Z)) :=
  check_sync_status (fun self =>
    lift match (l <- getitem (_dressed_indices self) param_index ;;
                index entry_eqb l dressed_index) with
         | Raise ValueError => Ok None
         | Raise e => Raise e
         | Ok lookup_position =>
             basis_labels <- getitem (_canonical_bare_labels self)
                                     lookup_position ;;
             Ok (Some basis_labels)
         end) self.

(** [dressed_eigenstates]. *)
Definition dressed_eigenstates (self : SpectrumLookup) (param_index : Z)
  : M esys :=
  check_sync_status (fun self =>
    lift (getitem (state_table (_dressed_specdata self)) param_index)) self.

(** [dressed_eigenenergies]. *)
Definition dressed_eigenenergies (self : SpectrumLookup) (param_index : Z)
  : M (list energy) :=
  check_sync_status (fun self =>
    lift (getitem (energy_table (_dressed_specdata self)) param_index)) self.

(** [energy_bare_index]. *)
Definition energy_bare_index (self : SpectrumLookup) (bare_tuples : list Z)
  (param_index : Z) : M (option energy) :=
  check_sync_status (fun self =>
    dressed_index <~ dressed_index self bare_tuples param_index ;;
    match dressed_index with
    | Some d =>
        lift (row <- getitem (energy_table (_dressed_specdata self))
                             param_index ;;
              e <- getitem row d ;;
              Ok (Some e))
    | None => lift (Ok None)
    end) self.

(** [energy_dressed_index]. *)
Definition energy_dressed_index (self : SpectrumLookup) (dressed_index : Z)
  (param_index : Z) : M energy :=
  check_sync_status (fun self =>
    lift (row <- getitem (energy_table (_dressed_specdata self))
                         param_index ;;
          getitem row dressed_index)) self.

(** [bare_eigenstates]. *)
Definition bare_eigenstates (self : SpectrumLookup) (subsys : QuantumSystem)
  (param_index : Z) : M (table_or_entry esys) :=
  check_sync_status (fun self =>
    lift (shared_lookup_bare_eigenstates (_sweep self) param_index subsys
            None)) self.

(** [bare_eigenenergies]. *)
Definition bare_eigenenergies (self : SpectrumLookup) (subsys : QuantumSystem)
  (param_index : Z) : M (table_or_entry (list energy)) :=
  check_sync_status (fun self =>
    lift (subsys_index <- hs_index (_hilbertspace self) subsys ;;
          update_list <- get_subsys_update_list (_sweep self) ;;
          if contains Nat.eqb subsys update_list then
            sd <- getitem (_bare_specdata_list self) subsys_index ;;
            row <- getitem (energy_table sd) param_index ;;
            Ok (Entry row)
          else
            sd <- getitem (_bare_specdata_list self) subsys_index ;;
            Ok (Whole (energy_table sd)))) self.

(** The guarded queries with their arguments, and what they return. *)
Inductive query : Type :=
| call_dressed_index (bare_labels : list Z) (param_index : Z)
| call_bare_index (dressed_index : option Z) (param_index : Z)
| call_dressed_eigenstates (param_index : Z)
| call_dressed_eigenenergies (param_index : Z)
| call_energy_bare_index (bare_tuples : list Z) (param_index : Z)
| call_energy_dressed_index (dressed_index : Z) (param_index : Z)
| call_bare_eigenstates (subsys : QuantumSystem) (param_index : Z)
| call_bare_eigenenergies (subsys : QuantumSystem) (param_index : Z).

Inductive value : Type :=
| val_index (d : option Z)
| val_label (l : option (list Z))
| val_states (e : esys)
| val_energies (l : list energy)
| val_energy (e : option energy)
| val_float (e : energy)
| val_bare_states (t : table_or_entry esys)
| val_bare_energies (t : table_or_entry (list energy)).

Definition mmap {A B} (f : A -> B) (c : M A) : M B :=
  (fst c, match snd c with Ok a => Ok (f a) | Raise e => Raise e end).

Definition run (self : SpectrumLookup) (q : query) : M value :=
  match q with
  | call_dressed_index l p => mmap val_index (dressed_index self l p)
  | call_bare_index d p => mmap val_label (bare_index self d p)
  | call_dressed_eigenstates p => mmap val_states (dressed_eigenstates self p)
  | call_dressed_eigenenergies p =>
      mmap val_energies (dressed_eigenenergies self p)
  | call_energy_bare_index l p => mmap val_energy (energy_bare_index self l p)
  | call_energy_dressed_index d p =>
      mmap val_float (energy_dressed_index self d p)
  | call_bare_eigenstates s p => mmap val_bare_states (bare_eigenstates self s p)
  | call_bare_eigenenergies s p =>
      mmap val_bare_energies (bare_eigenenergies self s p)
  end.

End Model.

(** Lexicographic order on tuples: the first component is the most
    significant, so the last one varies fastest along a sorted sequence. *)
Fixpoint lex_lt (a b : list Z) : Prop :=
  match a, b with
  | [], [] => False
  | [], _ :: _ => True
  | _ :: _, [] => False
  | x :: a', y :: b' => x < y \/ (x = y /\ lex_lt a' b')
  end.

(** The Cartesian product written as nested loops, outermost loop over the
    first pool: the enumeration the documentation of
    [_generate_bare_labels] displays. *)
Fixpoint cartesian {A} (pools : list (list A)) : list (list A) :=
  match pools with
  | [] => [[]]
  | pool :: rest =>
      flat_map (fun x => map (cons x) (cartesian rest)) pool
  end.

(* ================================================================== *)
(** ** Vocabulary of the properties *)
(* ================================================================== *)

(** [a] is the amplitude in row [i], column [b] of [m]. *)
Definition amplitude_at {A} (m : ndarray A) (i b : nat) (a : A) : Prop :=
  exists r, nth_error (rows m) i = Some r /\ nth_error r b = Some a.

(** Row [pos] is the lowest row whose magnitude in column [b] is the
    largest of the column, and that largest magnitude is [v]. *)
Definition first_max_row {A} (mag : A -> Q) (m : ndarray A) (b pos : nat)
  (v : Q) : Prop :=
  (exists a, amplitude_at m pos b a /\ mag a = v) /\
  (forall i a, amplitude_at m i b a -> (mag a <= v)%Q) /\
  (forall i a, (i < pos)%nat -> amplitude_at m i b a -> (mag a < v)%Q).

(** Position [pos] holds [v], the largest value of [l], and no earlier
    position does. *)
Definition first_maximum (l : list Q) (pos : nat) (v : Q) : Prop :=
  nth_error l pos = Some v /\
  (forall i x, nth_error l i = Some x -> (x <= v)%Q) /\
  (forall i x, (i < pos)%nat -> nth_error l i = Some x -> (x < v)%Q).

(** Position [pos] is the first one of [l] where [P] holds. *)
Definition first_position {A} (P : A -> Prop) (l : list A) (pos : nat)
  : Prop :=
  (exists a, nth_error l pos = Some a /\ P a) /\
  (forall i a, (i < pos)%nat -> nth_error l i = Some a -> ~ P a).

(* ================================================================== *)
(** ** Concrete systems *)
(* ================================================================== *)

(** Real amplitudes and energies with rational values; an eigenvector
    collection is given directly by its overlap matrix. *)
Definition rational_backend : Backend := {|
  amplitude := Q;
  energy := Q;
  esys := ndarray Q;
  np_abs := Qabs;
  convert_esys_to_ndarray := fun e => e
|}.

(** Two subsystems, the objects [0] and [1], of dimension two each. *)
Definition space22 : HilbertSpace := {|
  subsystem_dims := [2; 2];
  subsystem_count := 2;
  dimension := 4;
  hs_index := index Nat.eqb [0%nat; 1%nat];
  hs_get_subsys_index := index Nat.eqb [0%nat; 1%nat]
|}.

(** Two subsystems of dimensions two and three. *)
Definition space23 : HilbertSpace := {|
  subsystem_dims := [2; 3];
  subsystem_count := 2;
  dimension := 6;
  hs_index := index Nat.eqb [0%nat; 1%nat];
  hs_get_subsys_index := index Nat.eqb [0%nat; 1%nat]
|}.

Definition identity4 : ndarray Q := {|
  ncols := 4;
  rows := [[1; 0; 0; 0]; [0; 1; 0; 0]; [0; 0; 1; 0]; [0; 0; 0; 1]]%Q
|}.

(** Column 0 is sharp; column 1 has two rows of magnitude 3/5; column 2
    has two rows of magnitude exactly 1/2; column 3 peaks at 49/100. *)
Definition mixed4 : ndarray Q := {|
  ncols := 4;
  rows := [[1; - (3 # 5); 0; 2 # 5];
           [0; 3 # 5; 1 # 2; 0];
           [0; 0; - (1 # 2); 0];
           [0; 0; 0; 49 # 100]]%Q
|}.

Definition dressed_identity : @SpectrumData rational_backend :=
  @Build_SpectrumData rational_backend 1 [identity4] [[1; 2; 3; 4]%Q].

Definition dressed_mixed : @SpectrumData rational_backend :=
  @Build_SpectrumData rational_backend 1 [mixed4] [[1; 2; 3; 4]%Q].

Definition bare_qubit : @SpectrumData rational_backend :=
  @Build_SpectrumData rational_backend 1 [] [[0; 1]%Q].

(** The table [__init__] builds for [space22] from the identity overlaps. *)
Definition identity_lookup : @SpectrumLookup rational_backend := {|
  _dressed_specdata := dressed_identity;
  _bare_specdata_list := [bare_qubit; bare_qubit];
  _sweep := PyNone;
  _hilbertspace := space22;
  _canonical_bare_labels := [[0; 0]; [0; 1]; [1; 0]; [1; 1]];
  _dressed_indices := [[Some 0; Some 1; Some 2; Some 3]];
  _out_of_sync := false
|}.

(** The table [__init__] builds for [space22] from [mixed4]. *)
Definition mixed_lookup : @SpectrumLookup rational_backend := {|
  _dressed_specdata := dressed_mixed;
  _bare_specdata_list := [bare_qubit; bare_qubit];
  _sweep := PyNone;
  _hilbertspace := space22;
  _canonical_bare_labels := [[0; 0]; [0; 1]; [1; 0]; [1; 1]];
  _dressed_indices := [[Some 0; Some 0; Some 1; None]];
  _out_of_sync := false
|}.

(* ================================================================== *)
(** ** Further vocabulary and systems *)
(* ================================================================== *)

(** The [HilbertSpace] behind a framework object, when it is one of the two
    kinds [__init__] accepts. *)
Definition framework_space {backend : Backend} (framework : pyobj)
  : option HilbertSpace :=
  match framework with
  | PySweep s => Some (sweep_hilbertspace s)
  | PySpace h => Some h
  | _ => None
  end.

(** A tuple with one index per dimension, each within its range. *)
Definition in_ranges (t dims : list Z) : Prop :=
  Forall2 (fun x d => 0 <= x < d) t dims.

(** Number of tuples over the ranges of [dims]; a dimension below one
    contributes an empty range. *)
Definition label_count (dims : list Z) : Z :=
  fold_right (fun d acc => Z.max 0 d * acc) 1 dims.

(** Mixed-radix value of a tuple, the last index being the least
    significant digit. *)
Fixpoint rank (dims t : list Z) : Z :=
  match dims, t with
  | d :: ds, x :: t' => x * fold_right Z.mul 1 ds + rank ds t'
  | _, _ => 0
  end.

(** A sweep over two parameter values of [space22]; only subsystem [1]
    changes along the sweep. *)
Definition bare_swept : @SpectrumData rational_backend :=
  @Build_SpectrumData rational_backend 2 [identity4; mixed4]
    [[0; 1]%Q; [0; 2]%Q].

Definition dressed_sweep : @SpectrumData rational_backend :=
  @Build_SpectrumData rational_backend 2 [identity4; mixed4]
    [[1; 2; 3; 4]%Q; [1; 2; 3; 5]%Q].

Definition sweep22 : @ParameterSweep rational_backend :=
  @Build_ParameterSweep rational_backend space22 [1%nat]
    (index Nat.eqb [0%nat; 1%nat]) [bare_qubit; bare_swept].

(** The table [__init__] builds for [sweep22]. *)
Definition sweep_lookup : @SpectrumLookup rational_backend := {|
  _dressed_specdata := dressed_sweep;
  _bare_specdata_list := [bare_qubit; bare_swept];
  _sweep := PySweep sweep22;
  _hilbertspace := space22;
  _canonical_bare_labels := [[0; 0]; [0; 1]; [1; 0]; [1; 1]];
  _dressed_indices := [[Some 0; Some 1; Some 2; Some 3];
                       [Some 0; Some 0; Some 1; None]];
  _out_of_sync := false
|}.

(** A framework that announces three subsystems but lists two
    dimensions. *)
Definition space_overcount : HilbertSpace := {|
  subsystem_dims := [2; 2];
  subsystem_count := 3;
  dimension := 4;
  hs_index := index Nat.eqb [0%nat; 1%nat];
  hs_get_subsys_index := index Nat.eqb [0%nat; 1%nat]
|}.


Definition narrow : ndarray Q := {|
  ncols := 2;
  rows := [[1; 0]; [0; 1]]%Q
|}.


Definition dressed_narrow : @SpectrumData rational_backend :=
  @Build_SpectrumData rational_backend 1 [narrow] [[1; 2]%Q].

(* ================================================================== *)
(** ** Facts about the runtime fragments *)
(* ================================================================== *)

Lemma flat_map_map_comp {A B C} (f : B -> C) (g : A -> list B) (l : list A) :
  map f (flat_map g l) = flat_map (fun a => map f (g a)) l.
Proof.
  induction l as [|a l IH]; simpl; [reflexivity|].
  now rewrite map_app, IH.
Qed.

Lemma flat_map_flat_map {A B C} (f : B -> list C) (g : A -> list B)
  (l : list A) :
  flat_map f (flat_map g l) = flat_map (fun a => flat_map f (g a)) l.
Proof.
  induction l as [|a l IH]; simpl; [reflexivity|].
  now rewrite flat_map_app, IH.
Qed.

Lemma flat_map_of_map {A B C} (f : B -> list C) (g : A -> B) (l : list A) :
  flat_map f (map g l) = flat_map (fun a => f (g a)) l.
Proof.
  induction l as [|a l IH]; simpl; [reflexivity|].
  now rewrite IH.
Qed.

Section RuntimeFacts.

Context {A : Type}.

(** The loop of [product] extends every partial tuple on the right by
    every completion, in nested-loop order. *)
Lemma fold_product_step (pools : list (list A)) :
  forall acc,
    fold_left product_step pools acc =
    flat_map (fun x => map (app x) (cartesian pools)) acc.
Proof.
  induction pools as [|pool rest IH]; intros acc; simpl.
  - induction acc as [|x acc IHa]; simpl; [reflexivity|].
    now rewrite app_nil_r, <- IHa.
  - rewrite IH. unfold product_step.
    rewrite flat_map_flat_map.
    apply flat_map_ext. intros x.
    rewrite flat_map_of_map, flat_map_map_comp.
    apply flat_map_ext. intros y.
    rewrite !map_map. apply map_ext. intros t.
    now rewrite <- app_assoc.
Qed.

Lemma product_cartesian (pools : list (list A)) :
  product pools = cartesian pools.
Proof.
  unfold product. rewrite fold_product_step. simpl.
  rewrite app_nil_r. apply map_id.
Qed.

Lemma cartesian_In (pools : list (list A)) :
  forall t, In t (cartesian pools) <-> Forall2 (fun x pool => In x pool) t pools.
Proof.
  induction pools as [|pool rest IH]; intros t; simpl.
  - split.
    + intros [<-|[]]. constructor.
    + intros H. inversion H. now left.
  - rewrite in_flat_map. split.
    + intros (x & Hx & Ht). apply in_map_iff in Ht as (t' & <- & Ht').
      constructor; [assumption|]. now apply IH.
    + intros H. inversion H as [|x pool' t' rest' Hx Ht']; subst.
      exists x. split; [assumption|].
      apply in_map_iff. exists t'. split; [reflexivity|]. now apply IH.
Qed.

Lemma cartesian_length (pools : list (list A)) :
  length (cartesian pools) =
  fold_right Nat.mul 1%nat (map (@length A) pools).
Proof.
  induction pools as [|pool rest IH]; simpl; [reflexivity|].
  rewrite <- IH. clear IH.
  induction pool as [|x pool IHp]; simpl; [reflexivity|].
  now rewrite length_app, length_map, IHp.
Qed.

End RuntimeFacts.

Lemma range_In (n x : Z) : In x (range n) <-> 0 <= x < n.
Proof.
  unfold range. rewrite in_map_iff. split.
  - intros (k & <- & Hk). apply in_seq in Hk. lia.
  - intros H. exists (Z.to_nat x). split; [lia|]. apply in_seq. lia.
Qed.

Lemma range_length (n : Z) : Z.of_nat (length (range n)) = Z.max 0 n.
Proof. unfold range. rewrite length_map, length_seq. lia. Qed.

Lemma range_sorted (n : Z) : StronglySorted Z.lt (range n).
Proof.
  unfold range. generalize 0%nat as s. generalize (Z.to_nat n) as k.
  induction k as [|k IH]; intros s; simpl; constructor.
  - apply IH.
  - apply Forall_forall. intros y Hy.
    apply in_map_iff in Hy as (j & <- & Hj). apply in_seq in Hj. lia.
Qed.

Lemma StronglySorted_app {A} (R : A -> A -> Prop) (l1 l2 : list A) :
  StronglySorted R l1 -> StronglySorted R l2 ->
  (forall x y, In x l1 -> In y l2 -> R x y) ->
  StronglySorted R (l1 ++ l2).
Proof.
  induction l1 as [|a l1 IH]; simpl; intros H1 H2 H; [assumption|].
  inversion H1 as [|a' l1' Hs Hall]; subst. constructor.
  - apply IH; auto.
  - apply Forall_app. split; [assumption|].
    apply Forall_forall. intros y Hy. apply H; auto.
Qed.

Lemma lex_lt_cons_sorted (x : Z) (l : list (list Z)) :
  StronglySorted lex_lt l -> StronglySorted lex_lt (map (cons x) l).
Proof.
  induction 1 as [|t l Hs IH Hall]; simpl; constructor; [assumption|].
  apply Forall_forall. intros u Hu.
  apply in_map_iff in Hu as (u' & <- & Hu'). simpl. right. split; [reflexivity|].
  rewrite Forall_forall in Hall. now apply Hall.
Qed.

(** Nested loops over increasing pools enumerate the tuples in increasing
    lexicographic order. *)
Lemma cartesian_sorted (pools : list (list Z)) :
  Forall (StronglySorted Z.lt) pools -> StronglySorted lex_lt (cartesian pools).
Proof.
  induction 1 as [|pool rest Hpool _ IH]; simpl.
  - repeat constructor.
  - induction Hpool as [|x pool Hs IHp Hall]; simpl; [constructor|].
    apply StronglySorted_app.
    + now apply lex_lt_cons_sorted.
    + exact IHp.
    + intros a b Ha Hb.
      apply in_map_iff in Ha as (a' & <- & _).
      apply in_flat_map in Hb as (y & Hy & Hb).
      apply in_map_iff in Hb as (b' & <- & _).
      simpl. left. rewrite Forall_forall in Hall. now apply Hall.
Qed.

Lemma getitem_nat {A} (l : list A) (n : nat) (a : A) :
  nth_error l n = Some a -> getitem l (Z.of_nat n) = Ok a.
Proof.
  intros H. unfold getitem.
  assert (n < length l)%nat by (apply nth_error_Some; congruence).
  destruct (Z.ltb_spec (Z.of_nat n) 0); [lia|].
  destruct (Z.leb_spec 0 (Z.of_nat n)); [|lia].
  destruct (Z.ltb_spec (Z.of_nat n) (Z.of_nat (length l))); [|lia].
  simpl. now rewrite Nat2Z.id, H.
Qed.

Lemma getitem_beyond {A} (l : list A) (i : Z) :
  Z.of_nat (length l) <= i -> getitem l i = Raise IndexError.
Proof.
  intros H. unfold getitem.
  destruct (Z.ltb_spec i 0); [lia|].
  destruct (Z.ltb_spec i (Z.of_nat (length l))); [lia|].
  now rewrite andb_false_r.
Qed.

(** A successful [l[i]] with a non-negative index reads position [i]. *)
Lemma getitem_Ok_nonneg {A} (l : list A) (i : Z) (a : A) :
  0 <= i -> getitem l i = Ok a -> nth_error l (Z.to_nat i) = Some a.
Proof.
  unfold getitem. intros Hi.
  destruct (Z.ltb_spec i 0); [lia|].
  destruct ((0 <=? i) && (i <? Z.of_nat (length l))); [|discriminate].
  destruct (nth_error l (Z.to_nat i)); congruence.
Qed.

Lemma mapM_dims_ranges (pre dims : list Z) :
  mapM (fun subsys_index => d <- getitem (pre ++ dims) subsys_index ;;
                            Ok (range d))
       (map Z.of_nat (seq (length pre) (length dims)))
  = Ok (map range dims).
Proof.
  revert pre. induction dims as [|d dims IH]; intros pre; simpl; [reflexivity|].
  rewrite (getitem_nat _ _ d) by (rewrite nth_error_app2, Nat.sub_diag; auto).
  simpl.
  specialize (IH (pre ++ [d])).
  rewrite <- app_assoc, length_app, Nat.add_comm in IH. simpl in IH.
  now rewrite IH.
Qed.

Lemma generate_bare_labels_product (hs : HilbertSpace) :
  subsystem_count hs = Z.of_nat (length (subsystem_dims hs)) ->
  _generate_bare_labels hs = Ok (cartesian (map range (subsystem_dims hs))).
Proof.
  intros Hc. unfold _generate_bare_labels.
  assert (Hr : range (subsystem_count hs) =
               map Z.of_nat (seq 0 (length (subsystem_dims hs)))).
  { unfold range. now rewrite Hc, Nat2Z.id. }
  rewrite Hr.
  pose proof (mapM_dims_ranges [] (subsystem_dims hs)) as Hm.
  simpl in Hm. rewrite Hm. simpl.
  now rewrite product_cartesian.
Qed.

Lemma cartesian_NoDup_sorted (l : list (list Z)) :
  StronglySorted lex_lt l -> NoDup l.
Proof.
  assert (Hirr : forall t, ~ lex_lt t t).
  { induction t as [|x t IHt]; simpl; [tauto|]. intros [H|[_ H]]; [lia|auto]. }
  induction 1 as [|t l Hs IH Hall]; constructor; [|assumption].
  intros Hin. rewrite Forall_forall in Hall. exact (Hirr t (Hall t Hin)).
Qed.

Lemma Forall2_range_bounds (t dims : list Z) :
  Forall2 (fun x pool => In x pool) t (map range dims) <->
  Forall2 (fun x d => 0 <= x < d) t dims.
Proof.
  revert t. induction dims as [|d dims IH]; intros t; simpl.
  - split; intros H; inversion H; constructor.
  - split; intros H; inversion H; subst; constructor;
      try (now apply range_In); now apply IH.
Qed.

Lemma ranges_length_product (dims : list Z) :
  Forall (fun d => 1 <= d) dims ->
  Z.of_nat (fold_right Nat.mul 1%nat (map (@length Z) (map range dims)))
  = fold_right Z.mul 1 dims.
Proof.
  induction 1 as [|d dims Hd _ IH]; simpl; [reflexivity|].
  rewrite Nat2Z.inj_mul, IH, range_length. f_equal. lia.
Qed.

(** C2. For subsystem dimensions that are all at least one (and a
    framework whose subsystem count is the number of dimensions),
    [_generate_bare_labels] returns the full Cartesian product of the index
    ranges [0, dim): a tuple is listed exactly when it has one in-range index
    per subsystem; the listing is strictly increasing in lexicographic order,
    so the last index varies fastest; its length is the product of the
    dimensions; and for dimensions (2,3) it is
    (0,0),(0,1),(0,2),(1,0),(1,1),(1,2). *)
Theorem generate_bare_labels_canonical (hs : HilbertSpace) :
  subsystem_count hs = Z.of_nat (length (subsystem_dims hs)) ->
  Forall (fun d => 1 <= d) (subsystem_dims hs) ->
  exists labels,
    _generate_bare_labels hs = Ok labels /\
    (forall t, In t labels <->
               Forall2 (fun x d => 0 <= x < d) t (subsystem_dims hs)) /\
    StronglySorted lex_lt labels /\
    Z.of_nat (length labels) = fold_right Z.mul 1 (subsystem_dims hs) /\
    (subsystem_dims hs = [2; 3] ->
     labels = [[0; 0]; [0; 1]; [0; 2]; [1; 0]; [1; 1]; [1; 2]]).
Proof.
  intros Hc Hd. exists (cartesian (map range (subsystem_dims hs))).
  split; [now apply generate_bare_labels_product|].
  split; [|split; [|split]].
  - intros t. rewrite cartesian_In. apply Forall2_range_bounds.
  - apply cartesian_sorted. apply Forall_forall. intros pool Hp.
    apply in_map_iff in Hp as (d & <- & _). apply range_sorted.
  - rewrite cartesian_length. now apply ranges_length_product.
  - intros ->. reflexivity.
Qed.

Lemma generate_bare_labels_canonical_witness :
  exists labels,
    _generate_bare_labels space23 = Ok labels /\
    (forall t, In t labels <->
               Forall2 (fun x d => 0 <= x < d) t (subsystem_dims space23)) /\
    StronglySorted lex_lt labels /\
    Z.of_nat (length labels) = fold_right Z.mul 1 (subsystem_dims space23) /\
    (subsystem_dims space23 = [2; 3] ->
     labels = [[0; 0]; [0; 1]; [0; 2]; [1; 0]; [1; 1]; [1; 2]]).
Proof.
  apply (generate_bare_labels_canonical space23).
  - reflexivity.
  - simpl. repeat constructor; lia.
Defined.

(* ================================================================== *)
(** ** The overlap-based assignment *)
(* ================================================================== *)

Lemma Qltb_lt (x y : Q) : Qltb x y = true <-> (x < y)%Q.
Proof.
  unfold Qltb. rewrite negb_true_iff. split.
  - intros H. apply Qnot_le_lt. intros Hle.
    apply Qle_bool_iff in Hle. congruence.
  - intros H. destruct (Qle_bool y x) eqn:E; [|reflexivity].
    apply Qle_bool_iff in E. exfalso. exact (Qlt_not_le _ _ H E).
Qed.

Lemma Qltb_ge (x y : Q) : Qltb x y = false <-> (y <= x)%Q.
Proof.
  unfold Qltb. rewrite negb_false_iff. apply Qle_bool_iff.
Qed.

(** Invariant of the scan: once [pre] has been read with its first maximum
    [mp] at [max_ind], the scan of the remainder ends on the first maximum
    of the whole array. *)
Lemma argmax_loop_first_maximum (ip : list Q) :
  forall (pre : list Q) (mp : Q) (max_ind : nat),
    first_maximum pre max_ind mp ->
    exists v,
      first_maximum (pre ++ ip)
        (argmax_loop mp max_ind (length pre) ip) v.
Proof.
  induction ip as [|x r IH]; intros pre mp max_ind Hfm; simpl.
  - exists mp. now rewrite app_nil_r.
  - destruct Hfm as (Hnth & Hle & Hlt).
    assert (Hmi : (max_ind < length pre)%nat)
      by (apply nth_error_Some; congruence).
    replace (pre ++ x :: r) with ((pre ++ [x]) ++ r)
      by (now rewrite <- app_assoc).
    replace (S (length pre)) with (length (pre ++ [x]))
      by (rewrite length_app; simpl; lia).
    destruct (Qltb mp x) eqn:E.
    + apply Qltb_lt in E. apply IH. repeat split.
      * now rewrite nth_error_app2, Nat.sub_diag by lia.
      * intros i y Hy.
        destruct (Nat.lt_ge_cases i (length pre)) as [Hi|Hi].
        -- rewrite nth_error_app1 in Hy by assumption.
           apply Qlt_le_weak. eapply Qle_lt_trans; [eapply Hle; eauto|exact E].
        -- rewrite nth_error_app2 in Hy by assumption.
           destruct (i - length pre)%nat as [|k]; simpl in Hy.
           ++ injection Hy as <-. apply Qle_refl.
           ++ destruct k; discriminate.
      * intros i y Hi Hy. rewrite nth_error_app1 in Hy by assumption.
        eapply Qle_lt_trans; [eapply Hle; eauto|exact E].
    + apply Qltb_ge in E. apply IH. repeat split.
      * now rewrite nth_error_app1 by assumption.
      * intros i y Hy.
        destruct (Nat.lt_ge_cases i (length pre)) as [Hi|Hi].
        -- rewrite nth_error_app1 in Hy by assumption. eapply Hle; eauto.
        -- rewrite nth_error_app2 in Hy by assumption.
           destruct (i - length pre)%nat as [|k]; simpl in Hy.
           ++ now injection Hy as <-.
           ++ destruct k; discriminate.
      * intros i y Hi Hy. rewrite nth_error_app1 in Hy by lia.
        eapply Hlt; eauto.
Qed.

(** [argmax] of a non-empty array returns the first position of its
    maximum. *)
Lemma argmax_first_maximum (ip : list Q) :
  ip <> [] ->
  exists pos v, argmax ip = Ok (Z.of_nat pos) /\ first_maximum ip pos v.
Proof.
  destruct ip as [|x r]; [congruence|]. intros _.
  destruct (argmax_loop_first_maximum r [x] x 0) as (v & Hv).
  - repeat split.
    + intros [|[|i]] y Hy; simpl in Hy; try discriminate.
      injection Hy as <-. apply Qle_refl.
    + intros i y Hi. lia.
  - exists (argmax_loop x 0 1 r), v. split; [reflexivity|exact Hv].
Qed.

Lemma mapM_Forall2 {A B} (f : A -> result B) (P : A -> B -> Prop)
  (l : list A) :
  (forall x, In x l -> exists y, f x = Ok y /\ P x y) ->
  exists ys, mapM f l = Ok ys /\ Forall2 P l ys.
Proof.
  induction l as [|a l IH]; intros H; simpl.
  - exists []. split; [reflexivity|constructor].
  - destruct (H a (or_introl eq_refl)) as (y & Hy & Py).
    destruct IH as (ys & Hys & Pys); [intros x Hx; apply H; now right|].
    exists (y :: ys). rewrite Hy. simpl. rewrite Hys. simpl.
    split; [reflexivity|now constructor].
Qed.

Lemma Forall2_nth_error_l {A B} (P : A -> B -> Prop) (l1 : list A)
  (l2 : list B) :
  Forall2 P l1 l2 ->
  forall i x, nth_error l1 i = Some x ->
              exists y, nth_error l2 i = Some y /\ P x y.
Proof.
  induction 1 as [|a b l1 l2 Hab _ IH]; intros [|i] x Hx; simpl in *;
    try discriminate.
  - injection Hx as <-. eauto.
  - eauto.
Qed.

Lemma Forall2_nth_error_r {A B} (P : A -> B -> Prop) (l1 : list A)
  (l2 : list B) :
  Forall2 P l1 l2 ->
  forall i y, nth_error l2 i = Some y ->
              exists x, nth_error l1 i = Some x /\ P x y.
Proof.
  induction 1 as [|a b l1 l2 Hab _ IH]; intros [|i] y Hy; simpl in *;
    try discriminate.
  - injection Hy as <-. eauto.
  - eauto.
Qed.

Lemma range_nth_error (n : Z) (k : nat) :
  Z.of_nat k < n -> nth_error (range n) k = Some (Z.of_nat k).
Proof.
  intros H. unfold range. rewrite nth_error_map.
  rewrite nth_error_seq.
  destruct (Nat.ltb_spec k (Z.to_nat n)); [reflexivity|lia].
Qed.

(** Reading a column of a rectangular array succeeds and collects the
    entry of every row. *)
Lemma column_rectangular {A} (m : ndarray A) (b : nat) :
  rectangular m -> (b < ncols m)%nat ->
  exists col, column m (Z.of_nat b) = Ok col /\
              Forall2 (fun r a => nth_error r b = Some a) (rows m) col.
Proof.
  intros Hrect Hb. unfold column.
  destruct (Z.leb_spec (- Z.of_nat (ncols m)) (Z.of_nat b)); [|lia].
  destruct (Z.ltb_spec (Z.of_nat b) (Z.of_nat (ncols m))); [|lia].
  simpl. apply mapM_Forall2. intros r Hr.
  unfold rectangular in Hrect. rewrite Forall_forall in Hrect.
  specialize (Hrect r Hr).
  destruct (nth_error r b) as [a|] eqn:E.
  - exists a. split; [now apply getitem_nat|reflexivity].
  - apply nth_error_None in E. lia.
Qed.

Section Assignment.

Context {backend : Backend}.

(** One iteration of the loop of [_generate_single_mapping], on a column
    of a rectangular array with at least one row. *)
Lemma single_assignment (m : ndarray amplitude) (b : nat) :
  rectangular m -> rows m <> [] -> (b < ncols m)%nat ->
  exists pos v,
    first_max_row np_abs m b pos v /\
    (col <- column m (Z.of_nat b) ;;
     max_position <- argmax (map np_abs col) ;;
     a <- item m max_position (Z.of_nat b) ;;
     if Qltb (np_abs a) (1 # 2) then Ok None else Ok (Some max_position))
    = Ok (if Qltb v (1 # 2) then None else Some (Z.of_nat pos)).
Proof.
  intros Hrect Hrows Hb.
  destruct (column_rectangular m b Hrect Hb) as (col & Hcol & Hall).
  assert (Hne : map np_abs col <> []).
  { destruct (rows m); [congruence|]. inversion Hall. discriminate. }
  destruct (argmax_first_maximum _ Hne) as (pos & v & Harg & Hnth & Hle & Hlt).
  rewrite nth_error_map in Hnth.
  destruct (nth_error col pos) as [a|] eqn:Ea; [|discriminate].
  simpl in Hnth. injection Hnth as Hv.
  destruct (Forall2_nth_error_r _ _ _ Hall pos a Ea) as (r & Hr & Hra).
  exists pos, v. split.
  - repeat split.
    + exists a. split; [exists r; auto|exact Hv].
    + intros i a' (r' & Hr' & Ha').
      destruct (Forall2_nth_error_l _ _ _ Hall i r' Hr') as (c & Hc & Hrc).
      assert (c = a') by congruence. subst c.
      apply (Hle i). now rewrite nth_error_map, Hc.
    + intros i a' Hi (r' & Hr' & Ha').
      destruct (Forall2_nth_error_l _ _ _ Hall i r' Hr') as (c & Hc & Hrc).
      assert (c = a') by congruence. subst c.
      apply (Hlt i); [assumption|]. now rewrite nth_error_map, Hc.
  - rewrite Hcol. simpl. rewrite Harg. simpl.
    unfold item. rewrite (getitem_nat _ _ _ Hr). simpl.
    rewrite (getitem_nat _ _ _ Hra). simpl. rewrite Hv.
    now destruct (Qltb v (1 # 2)).
Qed.

(** C1. On a rectangular overlap matrix with at least one row and at least
    [dimension] columns, [_generate_single_mapping] returns one entry per
    bare-basis column index b in [0, dimension).  With v the largest
    magnitude of column b and pos the lowest row that attains it, the entry
    is pos when v >= 1/2 (so a maximum of exactly 1/2 is assigned) and
    unassigned when v < 1/2. *)
Theorem generate_single_mapping_threshold (ds : SpectrumData)
  (hs : HilbertSpace) (p : Z) (e : esys) :
  getitem (state_table ds) p = Ok e ->
  rectangular (convert_esys_to_ndarray e) ->
  rows (convert_esys_to_ndarray e) <> [] ->
  dimension hs <= Z.of_nat (ncols (convert_esys_to_ndarray e)) ->
  exists l,
    _generate_single_mapping ds hs p = Ok l /\
    Z.of_nat (length l) = Z.max 0 (dimension hs) /\
    forall b, 0 <= b < dimension hs ->
      exists pos v,
        first_max_row np_abs (convert_esys_to_ndarray e) (Z.to_nat b) pos v /\
        ((1 # 2 <= v)%Q -> nth_error l (Z.to_nat b) = Some (Some (Z.of_nat pos))) /\
        ((v < 1 # 2)%Q -> nth_error l (Z.to_nat b) = Some None).
Proof.
  intros He Hrect Hrows Hdim. unfold _generate_single_mapping.
  rewrite He. simpl. set (m := convert_esys_to_ndarray e) in *.
  destruct (mapM_Forall2
    (fun bare_basis_index =>
       col <- column m bare_basis_index ;;
       max_position <- argmax (map np_abs col) ;;
       a <- item m max_position bare_basis_index ;;
       if Qltb (np_abs a) (1 # 2) then Ok None else Ok (Some max_position))
    (fun b y => exists pos v,
       first_max_row np_abs m (Z.to_nat b) pos v /\
       y = if Qltb v (1 # 2) then None else Some (Z.of_nat pos))
    (range (dimension hs))) as (l & Hl & Hall).
  { intros b Hb. apply range_In in Hb.
    destruct (single_assignment m (Z.to_nat b) Hrect Hrows) as (pos & v & Hfm & Hrun);
      [lia|].
    rewrite Z2Nat.id in Hrun by lia. eauto 6. }
  exists l. split; [exact Hl|]. split.
  - rewrite <- (Forall2_length Hall). apply range_length.
  - intros b Hb.
    destruct (Forall2_nth_error_l _ _ _ Hall (Z.to_nat b) b) as (y & Hy & pos & v & Hfm & ->).
    { rewrite range_nth_error by lia. f_equal. lia. }
    exists pos, v. split; [exact Hfm|]. rewrite Hy. split; intros Hv.
    + apply Qltb_ge in Hv. now rewrite Hv.
    + apply Qltb_lt in Hv. now rewrite Hv.
Qed.

End Assignment.

Lemma generate_single_mapping_threshold_witness :
  exists l,
    _generate_single_mapping dressed_mixed space22 0 = Ok l /\
    Z.of_nat (length l) = Z.max 0 (dimension space22) /\
    forall b, 0 <= b < dimension space22 ->
      exists pos v,
        first_max_row Qabs mixed4 (Z.to_nat b) pos v /\
        ((1 # 2 <= v)%Q -> nth_error l (Z.to_nat b) = Some (Some (Z.of_nat pos))) /\
        ((v < 1 # 2)%Q -> nth_error l (Z.to_nat b) = Some None).
Proof.
  apply (@generate_single_mapping_threshold rational_backend
           dressed_mixed space22 0 mixed4).
  - reflexivity.
  - repeat constructor.
  - discriminate.
  - simpl. lia.
Defined.

(* ================================================================== *)
(** ** Searching a list *)
(* ================================================================== *)

Lemma tuple_eqb_eq (a b : list Z) : tuple_eqb a b = true <-> a = b.
Proof.
  unfold tuple_eqb. destruct (list_eq_dec Z.eq_dec a b); split;
    congruence.
Qed.

Lemma entry_eqb_eq (a b : option Z) : entry_eqb a b = true <-> a = b.
Proof.
  destruct a as [x|], b as [y|]; simpl; split; try congruence.
  - intros H. apply Z.eqb_eq in H. congruence.
  - intros H. injection H as ->. apply Z.eqb_refl.
Qed.

Section ListSearch.

Context {A : Type} (eqb : A -> A -> bool).
Hypothesis eqb_eq : forall a b, eqb a b = true <-> a = b.

Lemma find_index_Some (x : A) (l : list A) :
  forall i k, find_index eqb x l i = Some k ->
    exists j, k = (i + j)%nat /\ first_position (eq x) l j.
Proof.
  induction l as [|y r IH]; intros i k H; simpl in H; [discriminate|].
  destruct (eqb y x) eqn:E.
  - injection H as <-. apply eqb_eq in E. subst y.
    exists 0%nat. split; [lia|]. split.
    + exists x. now split.
    + intros j a Hj. lia.
  - destruct (IH _ _ H) as (j & -> & (a & Ha & Hax) & Hfirst).
    exists (S j). split; [lia|]. split.
    + exists a. now split.
    + intros [|j'] b Hj' Hb; simpl in Hb.
      * injection Hb as Hyb. intros Hx. subst.
        rewrite (proj2 (eqb_eq _ _) eq_refl) in E. discriminate.
      * apply (Hfirst j'); [lia|assumption].
Qed.

Lemma find_index_None (x : A) (l : list A) :
  forall i, find_index eqb x l i = None -> ~ In x l.
Proof.
  induction l as [|y r IH]; intros i H; simpl in *; [tauto|].
  destruct (eqb y x) eqn:E; [discriminate|].
  intros [Hyx|Hin].
  - subst. rewrite (proj2 (eqb_eq _ _) eq_refl) in E. discriminate.
  - exact (IH _ H Hin).
Qed.

(** [l.index(x)] raises [ValueError] exactly when [x] is not in [l]. *)
Lemma index_missing (x : A) (l : list A) :
  ~ In x l -> index eqb l x = Raise ValueError.
Proof.
  intros Hn. unfold index.
  destruct (find_index eqb x l 0) as [k|] eqn:E; [|reflexivity].
  destruct (find_index_Some _ _ _ _ E) as (j & _ & (a & Ha & <-) & _).
  exfalso. apply Hn. eapply nth_error_In; eauto.
Qed.

(** [l.index(x)] returns the first position holding [x] when there is
    one. *)
Lemma index_found (x : A) (l : list A) :
  In x l ->
  exists pos, index eqb l x = Ok (Z.of_nat pos) /\ first_position (eq x) l pos.
Proof.
  intros Hin. unfold index.
  destruct (find_index eqb x l 0) as [k|] eqn:E.
  - destruct (find_index_Some _ _ _ _ E) as (j & -> & Hj).
    exists j. now split.
  - exfalso. exact (find_index_None _ _ _ E Hin).
Qed.

Lemma index_Ok_inv (x : A) (l : list A) (z : Z) :
  index eqb l x = Ok z ->
  exists pos, z = Z.of_nat pos /\ first_position (eq x) l pos.
Proof.
  unfold index. destruct (find_index eqb x l 0) as [k|] eqn:E;
    [|discriminate].
  intros H. injection H as <-.
  destruct (find_index_Some _ _ _ _ E) as (j & -> & Hj). eauto.
Qed.

Lemma index_never_IndexError (x : A) (l : list A) (e : exn) :
  index eqb l x = Raise e -> e = ValueError.
Proof.
  unfold index. destruct (find_index eqb x l 0); congruence.
Qed.

End ListSearch.

(** In a list without repetition every element sits at one position. *)
Lemma NoDup_nth_error_eq {A} (l : list A) (i j : nat) (a : A) :
  NoDup l -> nth_error l i = Some a -> nth_error l j = Some a -> i = j.
Proof.
  intros Hnd Hi Hj. apply (proj1 (NoDup_nth_error l) Hnd).
  - apply nth_error_Some. congruence.
  - congruence.
Qed.

Lemma mapM_Ok_inv {A B} (f : A -> result B) (l : list A) :
  forall ys, mapM f l = Ok ys -> Forall2 (fun x y => f x = Ok y) l ys.
Proof.
  induction l as [|a l IH]; simpl; intros ys H.
  - injection H as <-. constructor.
  - destruct (f a) as [b|e] eqn:Ea; simpl in H; [|discriminate].
    destruct (mapM f l) as [bs|e]; simpl in H; [|discriminate].
    injection H as <-. constructor; auto.
Qed.

(** The labels [_generate_bare_labels] returns never repeat, whatever the
    framework reports. *)
Lemma generate_bare_labels_NoDup (hs : HilbertSpace) (labels : list (list Z)) :
  _generate_bare_labels hs = Ok labels -> NoDup labels.
Proof.
  unfold _generate_bare_labels.
  destruct (mapM _ (range (subsystem_count hs))) as [pools|e] eqn:E;
    simpl; [|discriminate].
  intros H. injection H as <-. rewrite product_cartesian.
  apply cartesian_NoDup_sorted, cartesian_sorted.
  apply mapM_Ok_inv in E. clear - E.
  induction E as [|i pool idxs pools Hi _ IH]; constructor; [|exact IH].
  destruct (getitem (subsystem_dims hs) i); simpl in Hi; [|discriminate].
  injection Hi as <-. apply range_sorted.
Qed.

(* ================================================================== *)
(** ** The query interface *)
(* ================================================================== *)

Section Queries.

Context {backend : Backend}.

Lemma mbind_outcome {A B} (c : M A) (k : A -> M B) :
  outcome (mbind c k) =
  match outcome c with Ok a => outcome (k a) | Raise e => Raise e end.
Proof.
  destruct c as [w [a|e]]; simpl; [|reflexivity].
  now destruct (k a).
Qed.

Lemma mbind_warnings {A B} (c : M A) (k : A -> M B) :
  warnings (mbind c k) =
  warnings c ++
  match outcome c with Ok a => warnings (k a) | Raise e => [] end.
Proof.
  destruct c as [w [a|e]]; simpl.
  - now destruct (k a).
  - now rewrite app_nil_r.
Qed.

(** The decorator leaves the outcome of the decorated function alone. *)
Lemma check_sync_status_outcome {A} (func : SpectrumLookup -> M A)
  (self : SpectrumLookup) :
  outcome (check_sync_status func self) = outcome (func self).
Proof.
  unfold check_sync_status. rewrite mbind_outcome.
  now destruct (_out_of_sync self).
Qed.

(** It issues its warning first, and only when the flag is set. *)
Lemma check_sync_status_warnings {A} (func : SpectrumLookup -> M A)
  (self : SpectrumLookup) :
  warnings (check_sync_status func self) =
  (if _out_of_sync self then [out_of_sync_warning] else []) ++
  warnings (func self).
Proof.
  unfold check_sync_status. rewrite mbind_warnings.
  now destruct (_out_of_sync self).
Qed.

Lemma dressed_index_outcome (self : SpectrumLookup) (bare_labels : list Z)
  (param_index : Z) :
  outcome (dressed_index self bare_labels param_index) =
  match index tuple_eqb (_canonical_bare_labels self) bare_labels with
  | Raise ValueError => Ok None
  | Raise e => Raise e
  | Ok lookup_position =>
      l <- getitem (_dressed_indices self) param_index ;;
      d <- getitem l lookup_position ;; Ok d
  end.
Proof. unfold dressed_index. now rewrite check_sync_status_outcome. Qed.

Lemma bare_index_outcome (self : SpectrumLookup) (d : option Z)
  (param_index : Z) :
  outcome (bare_index self d param_index) =
  match (l <- getitem (_dressed_indices self) param_index ;;
         index entry_eqb l d) with
  | Raise ValueError => Ok None
  | Raise e => Raise e
  | Ok lookup_position =>
      basis_labels <- getitem (_canonical_bare_labels self) lookup_position ;;
      Ok (Some basis_labels)
  end.
Proof. unfold bare_index. now rewrite check_sync_status_outcome. Qed.

(** A label of the canonical sequence is answered with the entry of the
    assignment list at its position. *)
Lemma dressed_index_found (self : SpectrumLookup) (bare_labels : list Z)
  (p : Z) (l : list (option Z)) (pos : nat) (d : option Z) :
  getitem (_dressed_indices self) p = Ok l ->
  first_position (eq bare_labels) (_canonical_bare_labels self) pos ->
  nth_error l pos = Some d ->
  outcome (dressed_index self bare_labels p) = Ok d.
Proof.
  intros Hl Hpos Hd. rewrite dressed_index_outcome.
  destruct Hpos as ((a & Ha & <-) & Hfirst).
  destruct (index_found tuple_eqb tuple_eqb_eq bare_labels
              (_canonical_bare_labels self)) as (pos' & Hidx & (a' & Ha' & <-) & Hfirst').
  { eapply nth_error_In; eauto. }
  assert (pos' = pos).
  { destruct (Nat.lt_trichotomy pos' pos) as [Hlt|[Heq|Hgt]]; [|exact Heq|].
    - exfalso. exact (Hfirst pos' _ Hlt Ha' eq_refl).
    - exfalso. exact (Hfirst' pos _ Hgt Ha eq_refl). }
  subst pos'. rewrite Hidx, Hl. simpl.
  now rewrite (getitem_nat _ _ _ Hd).
Qed.

(** A dressed index (or the sentinel) found in the assignment list is
    answered with the canonical label at its first position. *)
Lemma bare_index_found (self : SpectrumLookup) (d : option Z) (p : Z)
  (l : list (option Z)) :
  getitem (_dressed_indices self) p = Ok l ->
  (length l <= length (_canonical_bare_labels self))%nat ->
  In d l ->
  exists pos label,
    first_position (eq d) l pos /\
    nth_error (_canonical_bare_labels self) pos = Some label /\
    outcome (bare_index self d p) = Ok (Some label).
Proof.
  intros Hl Hlen Hin. rewrite bare_index_outcome, Hl. simpl.
  destruct (index_found entry_eqb entry_eqb_eq d l Hin) as (pos & Hidx & Hpos).
  rewrite Hidx.
  destruct Hpos as ((a & Ha & <-) & Hfirst).
  assert (Hlt : (pos < length l)%nat) by (apply nth_error_Some; congruence).
  destruct (nth_error (_canonical_bare_labels self) pos) as [label|] eqn:E.
  - exists pos, label. split; [|split; [exact E|]].
    + split; [eauto|exact Hfirst].
    + now rewrite (getitem_nat _ _ _ E).
  - apply nth_error_None in E. lia.
Qed.

(** C3. [dressed_index] returns unassigned, without raising, for a label
    that is not in the canonical sequence.  For a label that is in it and a
    parameter index that selects an assignment list with an entry for every
    canonical position, it returns the entry of that list at the label's
    canonical position (an entry that may itself be unassigned). *)
Theorem dressed_index_lookup (self : SpectrumLookup) (bare_labels : list Z)
  (p : Z) :
  (~ In bare_labels (_canonical_bare_labels self) ->
   outcome (dressed_index self bare_labels p) = Ok None) /\
  (forall l : list (option Z),
     getitem (_dressed_indices self) p = Ok l ->
     (length (_canonical_bare_labels self) <= length l)%nat ->
     In bare_labels (_canonical_bare_labels self) ->
     exists pos d,
       first_position (eq bare_labels) (_canonical_bare_labels self) pos /\
       nth_error l pos = Some d /\
       outcome (dressed_index self bare_labels p) = Ok d).
Proof.
  split.
  - intros Hn. rewrite dressed_index_outcome.
    now rewrite (index_missing tuple_eqb tuple_eqb_eq _ _ Hn).
  - intros l Hl Hlen Hin.
    destruct (index_found tuple_eqb tuple_eqb_eq _ _ Hin) as (pos & _ & Hpos).
    assert (Hlt : (pos < length (_canonical_bare_labels self))%nat).
    { destruct Hpos as ((a & Ha & _) & _). apply nth_error_Some. congruence. }
    destruct (nth_error l pos) as [d|] eqn:E.
    + exists pos, d. split; [exact Hpos|]. split; [exact E|].
      eapply dressed_index_found; eauto.
    + apply nth_error_None in E. lia.
Qed.

(** C4. For a parameter index that selects an assignment list,
    [bare_index] returns unassigned when no entry of the list equals the
    queried dressed index; when some entry does (and the list is no longer
    than the canonical sequence) it returns the canonical label at the first
    position whose entry equals it. *)
Theorem bare_index_first_match (self : SpectrumLookup) (d : option Z)
  (p : Z) (l : list (option Z)) :
  getitem (_dressed_indices self) p = Ok l ->
  (~ In d l -> outcome (bare_index self d p) = Ok None) /\
  ((length l <= length (_canonical_bare_labels self))%nat ->
   In d l ->
   exists pos label,
     first_position (eq d) l pos /\
     nth_error (_canonical_bare_labels self) pos = Some label /\
     outcome (bare_index self d p) = Ok (Some label)).
Proof.
  intros Hl. split.
  - intros Hn. rewrite bare_index_outcome, Hl. simpl.
    now rewrite (index_missing entry_eqb entry_eqb_eq _ _ Hn).
  - intros Hlen Hin. now apply bare_index_found.
Qed.

(** C10. With the unassigned sentinel as the dressed-index argument and an
    assignment list that holds an unassigned entry, [bare_index] returns the
    canonical label at the first unassigned position, not unassigned. *)
Theorem bare_index_sentinel_collision (self : SpectrumLookup) (p : Z)
  (l : list (option Z)) :
  getitem (_dressed_indices self) p = Ok l ->
  (length l <= length (_canonical_bare_labels self))%nat ->
  In None l ->
  exists pos label,
    first_position (eq None) l pos /\
    nth_error (_canonical_bare_labels self) pos = Some label /\
    outcome (bare_index self None p) = Ok (Some label) /\
    outcome (bare_index self None p) <> Ok None.
Proof.
  intros Hl Hlen Hin.
  destruct (bare_index_found self None p l Hl Hlen Hin)
    as (pos & label & Hpos & Hlabel & Hout).
  exists pos, label. repeat split; try assumption; try apply Hpos.
  rewrite Hout. discriminate.
Qed.

(** C9. For a label of the canonical sequence, a parameter index at or
    beyond the number of stored assignment lists makes [dressed_index] raise
    [IndexError]: the handler around the label search does not cover the
    access by parameter index. *)
Theorem dressed_index_param_index_out_of_range (self : SpectrumLookup)
  (bare_labels : list Z) (p : Z) :
  In bare_labels (_canonical_bare_labels self) ->
  Z.of_nat (length (_dressed_indices self)) <= p ->
  outcome (dressed_index self bare_labels p) = Raise IndexError.
Proof.
  intros Hin Hp. rewrite dressed_index_outcome.
  destruct (index_found tuple_eqb tuple_eqb_eq _ _ Hin) as (pos & -> & _).
  now rewrite (getitem_beyond _ _ Hp).
Qed.

(** C6. Whenever [dressed_index] answers with a dressed index d,
    [energy_bare_index] is the entry at d of the array that
    [dressed_eigenenergies] returns for the same parameter index; whenever
    [dressed_index] answers unassigned, so does [energy_bare_index]. *)
Theorem energy_bare_index_lookup (self : SpectrumLookup)
  (bare_tuples : list Z) (p : Z) :
  (forall d,
     outcome (dressed_index self bare_tuples p) = Ok (Some d) ->
     outcome (energy_bare_index self bare_tuples p) =
     (energies <- outcome (dressed_eigenenergies self p) ;;
      e <- getitem energies d ;; Ok (Some e))) /\
  (outcome (dressed_index self bare_tuples p) = Ok None ->
   outcome (energy_bare_index self bare_tuples p) = Ok None).
Proof.
  unfold energy_bare_index, dressed_eigenenergies.
  rewrite !check_sync_status_outcome, mbind_outcome.
  split.
  - intros d ->. reflexivity.
  - intros ->. reflexivity.
Qed.

(** Round trip on a table whose canonical labels do not repeat. *)
Lemma dressed_index_of_bare_index (self : SpectrumLookup) (d : option Z)
  (p : Z) (label : list Z) :
  NoDup (_canonical_bare_labels self) ->
  outcome (bare_index self d p) = Ok (Some label) ->
  outcome (dressed_index self label p) = Ok d.
Proof.
  intros Hnd. rewrite bare_index_outcome.
  destruct (getitem (_dressed_indices self) p) as [l|e] eqn:Hl; simpl.
  2:{ destruct e; discriminate. }
  destruct (index entry_eqb l d) as [z|e] eqn:Hidx.
  2:{ destruct e; discriminate. }
  destruct (index_Ok_inv entry_eqb entry_eqb_eq _ _ _ Hidx)
    as (pos & -> & (a & Ha & <-) & _).
  destruct (getitem (_canonical_bare_labels self) (Z.of_nat pos))
    as [lbl|e] eqn:Hlbl; simpl; [|discriminate].
  intros H. injection H as ->.
  apply getitem_Ok_nonneg in Hlbl; [|lia]. rewrite Nat2Z.id in Hlbl.
  apply (dressed_index_found self label p l pos d Hl); [|exact Ha].
  split; [eauto|].
  intros i a Hi Hia <-.
  pose proof (NoDup_nth_error_eq _ _ _ _ Hnd Hia Hlbl). lia.
Qed.

Lemma init_NoDup (framework : pyobj) (ds : SpectrumData)
  (bs : list SpectrumData) (t : SpectrumLookup) :
  __init__ framework ds bs = Ok t -> NoDup (_canonical_bare_labels t).
Proof.
  unfold __init__.
  destruct (match framework with
            | PySweep s => Ok (PySweep s, sweep_hilbertspace s)
            | PySpace h => Ok (PyNone, h)
            | _ => Raise TypeError
            end) as [owner|e]; simpl; [|discriminate].
  destruct (_generate_bare_labels (snd owner)) as [labels|e] eqn:E;
    simpl; [|discriminate].
  destruct (_generate_mappings ds (snd owner)); simpl; [|discriminate].
  intros H. injection H as <-. simpl.
  now apply generate_bare_labels_NoDup in E.
Qed.

(** Every assignment list has one entry per bare-basis index. *)
Lemma generate_single_mapping_length (ds : SpectrumData) (hs : HilbertSpace)
  (p : Z) (l : list (option Z)) :
  _generate_single_mapping ds hs p = Ok l ->
  Z.of_nat (length l) = Z.max 0 (dimension hs).
Proof.
  unfold _generate_single_mapping.
  destruct (getitem (state_table ds) p); simpl; [|discriminate].
  intros H. apply mapM_Ok_inv in H.
  rewrite <- (Forall2_length H). apply range_length.
Qed.


End Queries.

(* ================================================================== *)
(** ** The tables of the concrete systems *)
(* ================================================================== *)

Lemma init_identity :
  __init__ (PySpace space22) dressed_identity [bare_qubit; bare_qubit]
  = Ok identity_lookup.
Proof. reflexivity. Qed.

Lemma init_mixed :
  __init__ (PySpace space22) dressed_mixed [bare_qubit; bare_qubit]
  = Ok mixed_lookup.
Proof. reflexivity. Qed.

(** Identity overlaps: dressed index 2 and bare label (1,0) answer each
    other. *)
Lemma identity_lookup_queries :
  outcome (bare_index identity_lookup (Some 2) 0) = Ok (Some [1; 0]) /\
  outcome (dressed_index identity_lookup [1; 0] 0) = Ok (Some 2).
Proof. split; reflexivity. Qed.

Lemma dressed_index_lookup_witness :
  outcome (dressed_index identity_lookup [2; 0] 0) = Ok None /\
  exists pos d,
    first_position (eq [1; 0]) (_canonical_bare_labels identity_lookup) pos /\
    nth_error [Some 0; Some 1; Some 2; Some 3] pos = Some d /\
    outcome (dressed_index identity_lookup [1; 0] 0) = Ok d.
Proof.
  split.
  - apply (proj1 (dressed_index_lookup identity_lookup [2; 0] 0)).
    simpl. intros [H|[H|[H|[H|[]]]]]; discriminate.
  - apply (proj2 (dressed_index_lookup identity_lookup [1; 0] 0)
             [Some 0; Some 1; Some 2; Some 3]).
    + reflexivity.
    + simpl. lia.
    + simpl. tauto.
Defined.

Lemma bare_index_first_match_witness :
  outcome (bare_index identity_lookup (Some 7) 0) = Ok None /\
  exists pos label,
    first_position (eq (Some 2)) [Some 0; Some 1; Some 2; Some 3] pos /\
    nth_error (_canonical_bare_labels identity_lookup) pos = Some label /\
    outcome (bare_index identity_lookup (Some 2) 0) = Ok (Some label).
Proof.
  split.
  - apply (proj1 (bare_index_first_match identity_lookup (Some 7) 0
                    [Some 0; Some 1; Some 2; Some 3] eq_refl)).
    simpl. intros [H|[H|[H|[H|[]]]]]; discriminate.
  - apply (proj2 (bare_index_first_match identity_lookup (Some 2) 0
                    [Some 0; Some 1; Some 2; Some 3] eq_refl)).
    + simpl. lia.
    + simpl. tauto.
Defined.

Lemma bare_index_sentinel_collision_witness :
  exists pos label,
    first_position (eq None) [Some 0; Some 0; Some 1; None] pos /\
    nth_error (_canonical_bare_labels mixed_lookup) pos = Some label /\
    outcome (bare_index mixed_lookup None 0) = Ok (Some label) /\
    outcome (bare_index mixed_lookup None 0) <> Ok None.
Proof.
  apply (bare_index_sentinel_collision mixed_lookup 0
           [Some 0; Some 0; Some 1; None]).
  - reflexivity.
  - simpl. lia.
  - simpl. tauto.
Defined.

Lemma dressed_index_param_index_out_of_range_witness :
  outcome (dressed_index identity_lookup [0; 0] 1) = Raise IndexError.
Proof.
  apply (dressed_index_param_index_out_of_range identity_lookup [0; 0] 1).
  - simpl. tauto.
  - simpl. lia.
Defined.

Lemma energy_bare_index_lookup_witness :
  outcome (energy_bare_index identity_lookup [1; 0] 0) =
  (energies <- outcome (dressed_eigenenergies identity_lookup 0) ;;
   e <- getitem energies 2 ;; Ok (Some e)) /\
  outcome (energy_bare_index mixed_lookup [1; 1] 0) = Ok None.
Proof.
  split.
  - apply (proj1 (energy_bare_index_lookup identity_lookup [1; 0] 0) 2).
    reflexivity.
  - apply (proj2 (energy_bare_index_lookup mixed_lookup [1; 1] 0)).
    reflexivity.
Defined.

(** C5. On every table that [__init__] builds, stale or not, if
    [bare_index] answers with a label for the dressed index d, then
    [dressed_index] answers that label with d.  The other composition can
    fail: in the table built from [mixed4], label (0,1) has dressed index 0,
    and [bare_index] answers 0 with (0,0). *)
Theorem round_trip_dressed_bare :
  (forall (backend : Backend) (framework : pyobj) (ds : SpectrumData)
          (bs : list SpectrumData) (t : SpectrumLookup) (flag : bool)
          (d : option Z) (p : Z) (label : list Z),
      __init__ framework ds bs = Ok t ->
      outcome (bare_index (set_out_of_sync t flag) d p) = Ok (Some label) ->
      outcome (dressed_index (set_out_of_sync t flag) label p) = Ok d) /\
  (__init__ (PySpace space22) dressed_mixed [bare_qubit; bare_qubit]
   = Ok mixed_lookup /\
   outcome (dressed_index mixed_lookup [0; 1] 0) = Ok (Some 0) /\
   outcome (bare_index mixed_lookup (Some 0) 0) = Ok (Some [0; 0])).
Proof.
  split.
  - intros backend framework ds bs t flag d p label Hinit Hb.
    apply dressed_index_of_bare_index; [|exact Hb].
    simpl. exact (init_NoDup _ _ _ _ Hinit).
  - repeat split.
Qed.

Lemma round_trip_dressed_bare_witness :
  outcome (dressed_index (set_out_of_sync mixed_lookup true) [0; 0] 0)
  = Ok (Some 0).
Proof.
  apply (proj1 round_trip_dressed_bare rational_backend (PySpace space22)
           dressed_mixed [bare_qubit; bare_qubit] mixed_lookup true
           (Some 0) 0 [0; 0]).
  - reflexivity.
  - reflexivity.
Defined.

(* ================================================================== *)
(** ** The out-of-sync warning *)
(* ================================================================== *)

Section SyncGuard.

Context {backend : Backend}.

Lemma mmap_outcome {A B} (f : A -> B) (c : M A) :
  outcome (mmap f c) =
  match outcome c with Ok a => Ok (f a) | Raise e => Raise e end.
Proof. reflexivity. Qed.

Lemma mmap_warnings {A B} (f : A -> B) (c : M A) :
  warnings (mmap f c) = warnings c.
Proof. reflexivity. Qed.

(** The answer of [dressed_index] does not read the flag. *)
Lemma dressed_index_flag (self : SpectrumLookup) (flag : bool)
  (bare_labels : list Z) (p : Z) :
  outcome (dressed_index (set_out_of_sync self flag) bare_labels p) =
  outcome (dressed_index self bare_labels p).
Proof. now rewrite !dressed_index_outcome. Qed.

Lemma dressed_index_warnings (self : SpectrumLookup) (bare_labels : list Z)
  (p : Z) :
  warnings (dressed_index self bare_labels p) =
  if _out_of_sync self then [out_of_sync_warning] else [].
Proof.
  unfold dressed_index. rewrite check_sync_status_warnings.
  apply app_nil_r.
Qed.

(** C7, as the code has it. For every guarded query and all arguments,
    the outcome (value or exception) with the flag set is the outcome
    with the flag clear, so a set flag never turns a success into a failure;
    with the flag clear no warning is issued; with the flag set the call
    first issues the out-of-sync warning, and that is the only warning of the
    call for every query but [energy_bare_index], whose body calls the guarded
    [dressed_index] and so issues the warning a second time. *)
Theorem check_sync_status_warn_and_continue (self : SpectrumLookup)
  (q : query) :
  outcome (run (set_out_of_sync self true) q) =
  outcome (run (set_out_of_sync self false) q) /\
  warnings (run (set_out_of_sync self false) q) = [] /\
  warnings (run (set_out_of_sync self true) q) =
  out_of_sync_warning ::
    match q with
    | call_energy_bare_index _ _ => [out_of_sync_warning]
    | _ => []
    end.
Proof.
  destruct q; unfold run; rewrite !mmap_outcome, !mmap_warnings;
    try (split; [|split]; reflexivity).
  unfold energy_bare_index.
  rewrite !check_sync_status_outcome, !check_sync_status_warnings,
    !mbind_outcome, !mbind_warnings, !dressed_index_flag,
    !dressed_index_warnings.
  simpl.
  destruct (outcome (dressed_index self bare_tuples param_index))
    as [[d|]|e]; repeat split.
Qed.

(** A table owned directly by a [HilbertSpace] keeps [None] as its sweep;
    [bare_eigenstates] hands that [None] to
    [shared_lookup_bare_eigenstates], and [bare_eigenenergies] asks it for
    [subsys_update_list]: both raise for every subsystem. *)
Lemma bare_queries_without_sweep (h : HilbertSpace) (ds : SpectrumData)
  (bs : list SpectrumData) (t : SpectrumLookup) (subsys : QuantumSystem)
  (p : Z) :
  __init__ (PySpace h) ds bs = Ok t ->
  outcome (bare_eigenstates t subsys p) = Raise TypeError /\
  exists e, outcome (bare_eigenenergies t subsys p) = Raise e.
Proof.
  unfold __init__. simpl.
  destruct (_generate_bare_labels h); simpl; [|discriminate].
  destruct (_generate_mappings ds h); simpl; [|discriminate].
  intros H. injection H as <-.
  unfold bare_eigenstates, bare_eigenenergies.
  rewrite !check_sync_status_outcome. simpl. split; [reflexivity|].
  destruct (hs_index h subsys); simpl; eauto.
Qed.

(** The [HilbertSpace] branch of [shared_lookup_bare_eigenstates] itself
    returns the whole state table of the subsystem, whatever the parameter
    index, when it is given the framework and the bare data. *)
Lemma shared_lookup_space_whole_table (h : HilbertSpace)
  (bs : list SpectrumData) (subsys : QuantumSystem) (p i : Z)
  (sd : SpectrumData) :
  hs_get_subsys_index h subsys = Ok i ->
  getitem bs i = Ok sd ->
  shared_lookup_bare_eigenstates (PySpace h) p subsys (Some bs)
  = Ok (Whole (state_table sd)).
Proof. intros Hi Hsd. simpl. rewrite Hi. simpl. now rewrite Hsd. Qed.

End SyncGuard.

(** C7, as stated, fails: on the stale table of the identity overlaps one
    call of [energy_bare_index] issues the warning twice. *)
Lemma energy_bare_index_warns_twice :
  _out_of_sync (set_out_of_sync identity_lookup true) = true /\
  warnings (run (set_out_of_sync identity_lookup true)
              (call_energy_bare_index [0; 0] 0))
  = [out_of_sync_warning; out_of_sync_warning] /\
  length (warnings (run (set_out_of_sync identity_lookup true)
                      (call_energy_bare_index [0; 0] 0))) <> 1%nat.
Proof.
  split; [reflexivity|]. split; [reflexivity|]. simpl. lia.
Qed.

(** C8 on the code. The table [__init__] builds for the single-point
    system [space22] answers [bare_eigenstates] with [TypeError] and
    [bare_eigenenergies] with [AttributeError] instead of the bare tables of
    the subsystem. *)
Theorem bare_queries_fail_for_hilbertspace_owner :
  __init__ (PySpace space22) dressed_identity [bare_qubit; bare_qubit]
  = Ok identity_lookup /\
  outcome (bare_eigenstates identity_lookup 0%nat 0) = Raise TypeError /\
  outcome (bare_eigenenergies identity_lookup 0%nat 0) = Raise AttributeError.
Proof. repeat split. Qed.

(* ================================================================== *)
(** ** Construction of the table *)
(* ================================================================== *)

Lemma init_sweep :
  __init__ (PySweep sweep22) dressed_sweep [bare_qubit; bare_swept]
  = Ok sweep_lookup.
Proof. reflexivity. Qed.


(** A successful [l[i]] has its index within [-len, len). *)
Lemma getitem_Ok_bounds {A} (l : list A) (i : Z) (a : A) :
  getitem l i = Ok a ->
  - Z.of_nat (length l) <= i < Z.of_nat (length l).
Proof.
  unfold getitem. destruct (Z.ltb_spec i 0) as [Hneg|Hpos].
  - destruct (Z.leb_spec 0 (i + Z.of_nat (length l)));
      destruct (Z.ltb_spec (i + Z.of_nat (length l)) (Z.of_nat (length l)));
      simpl; try discriminate. intros _. lia.
  - destruct (Z.leb_spec 0 i);
      destruct (Z.ltb_spec i (Z.of_nat (length l)));
      simpl; try discriminate. intros _. lia.
Qed.

Lemma getitem_in_range {A} (l : list A) (i : Z) :
  0 <= i < Z.of_nat (length l) -> exists a, getitem l i = Ok a.
Proof.
  intros H. destruct (nth_error l (Z.to_nat i)) as [a|] eqn:E.
  - exists a. rewrite <- (Z2Nat.id i) by lia. now apply getitem_nat.
  - apply nth_error_None in E. lia.
Qed.


(** The comprehension stops at the first element whose expression
    raises. *)
Lemma mapM_Raise_at {A B} (f : A -> result B) (l1 l2 : list A) (x : A)
  (e : exn) :
  (forall y, In y l1 -> exists b, f y = Ok b) ->
  f x = Raise e ->
  mapM f (l1 ++ x :: l2) = Raise e.
Proof.
  induction l1 as [|a l1 IH]; simpl; intros Hok Hx.
  - now rewrite Hx.
  - destruct (Hok a (or_introl eq_refl)) as (b & ->). simpl.
    rewrite IH; auto.
Qed.

Lemma mapM_dims_prefix (pre mid suf : list Z) :
  mapM (fun subsys_index => d <- getitem (pre ++ mid ++ suf) subsys_index ;;
                            Ok (range d))
       (map Z.of_nat (seq (length pre) (length mid)))
  = Ok (map range mid).
Proof.
  revert pre. induction mid as [|d mid IH]; intros pre; simpl; [reflexivity|].
  rewrite (getitem_nat _ _ d) by (rewrite nth_error_app2, Nat.sub_diag; auto).
  simpl.
  specialize (IH (pre ++ [d])).
  rewrite <- app_assoc, length_app, Nat.add_comm in IH. simpl in IH.
  now rewrite IH.
Qed.

Lemma ranges_length_count (dims : list Z) :
  Z.of_nat (fold_right Nat.mul 1%nat (map (@length Z) (map range dims)))
  = label_count dims.
Proof.
  induction dims as [|d dims IH]; simpl; [reflexivity|].
  now rewrite Nat2Z.inj_mul, IH, range_length.
Qed.

Lemma generate_bare_labels_firstn (hs : HilbertSpace) :
  subsystem_count hs <= Z.of_nat (length (subsystem_dims hs)) ->
  _generate_bare_labels hs =
  Ok (cartesian (map range (firstn (Z.to_nat (subsystem_count hs))
                              (subsystem_dims hs)))).
Proof.
  intros Hc. set (n := Z.to_nat (subsystem_count hs)).
  set (used := firstn n (subsystem_dims hs)).
  assert (Hn : (n <= length (subsystem_dims hs))%nat) by (unfold n; lia).
  unfold _generate_bare_labels, range at 2. fold n.
  pose proof (mapM_dims_prefix [] used (skipn n (subsystem_dims hs))) as Hm.
  simpl in Hm. unfold used in Hm at 1 2.
  rewrite firstn_skipn, length_firstn, Nat.min_l in Hm by exact Hn.
  rewrite Hm. simpl. now rewrite product_cartesian.
Qed.

(** X2. [_generate_bare_labels] reads only the first [subsystem_count]
    dimensions.  When the count does not exceed the number of listed
    dimensions, the labels are exactly the tuples over the ranges of those
    first dimensions, in increasing lexicographic order, and their number is
    the product of the dimensions with any dimension below one counted as
    zero: a subsystem of dimension zero leaves no label, and a count of zero
    or less leaves the single empty label. *)
Theorem generate_bare_labels_prefix (hs : HilbertSpace) :
  subsystem_count hs <= Z.of_nat (length (subsystem_dims hs)) ->
  exists labels,
    _generate_bare_labels hs = Ok labels /\
    (forall t, In t labels <->
       in_ranges t (firstn (Z.to_nat (subsystem_count hs))
                      (subsystem_dims hs))) /\
    StronglySorted lex_lt labels /\
    Z.of_nat (length labels) =
    label_count (firstn (Z.to_nat (subsystem_count hs)) (subsystem_dims hs)) /\
    (subsystem_count hs <= 0 -> labels = [[]]).
Proof.
  intros Hc. set (n := Z.to_nat (subsystem_count hs)).
  set (used := firstn n (subsystem_dims hs)).
  assert (Hn : (n <= length (subsystem_dims hs))%nat) by (unfold n; lia).
  exists (cartesian (map range used)). split; [|split; [|split; [|split]]].
  - now apply generate_bare_labels_firstn.
  - intros t. rewrite cartesian_In. apply Forall2_range_bounds.
  - apply cartesian_sorted. apply Forall_forall. intros pool Hp.
    apply in_map_iff in Hp as (d & <- & _). apply range_sorted.
  - rewrite cartesian_length. apply ranges_length_count.
  - intros H0. unfold used. replace n with 0%nat by (unfold n; lia).
    reflexivity.
Qed.

Lemma generate_bare_labels_prefix_witness :
  exists labels,
    _generate_bare_labels space23 = Ok labels /\
    (forall t, In t labels <->
       in_ranges t (firstn (Z.to_nat (subsystem_count space23))
                      (subsystem_dims space23))) /\
    StronglySorted lex_lt labels /\
    Z.of_nat (length labels) =
    label_count (firstn (Z.to_nat (subsystem_count space23))
                   (subsystem_dims space23)) /\
    (subsystem_count space23 <= 0 -> labels = [[]]).
Proof.
  apply (generate_bare_labels_prefix space23). simpl. lia.
Defined.

(** X3. A framework that announces more subsystems than it lists
    dimensions makes [_generate_bare_labels] raise [IndexError]. *)
Theorem generate_bare_labels_overcount (hs : HilbertSpace) :
  Z.of_nat (length (subsystem_dims hs)) < subsystem_count hs ->
  _generate_bare_labels hs = Raise IndexError.
Proof.
  intros Hc. unfold _generate_bare_labels, range at 2.
  set (len := length (subsystem_dims hs)).
  replace (Z.to_nat (subsystem_count hs))
    with (len + S (Z.to_nat (subsystem_count hs) - S len))%nat
    by (unfold len; lia).
  rewrite seq_app, map_app. simpl.
  rewrite (mapM_Raise_at _ _ _ (Z.of_nat len) IndexError); [reflexivity| |].
  - intros y Hy. apply in_map_iff in Hy as (k & <- & Hk).
    apply in_seq in Hk.
    destruct (getitem_in_range (subsystem_dims hs) (Z.of_nat k)) as (d & ->);
      [fold len; lia|].
    simpl. eauto.
  - rewrite getitem_beyond; [reflexivity|fold len; lia].
Qed.

Lemma generate_bare_labels_overcount_witness :
  _generate_bare_labels space_overcount = Raise IndexError.
Proof.
  apply (generate_bare_labels_overcount space_overcount). simpl. lia.
Defined.



Lemma argmax_Ok (ip : list Q) (z : Z) :
  argmax ip = Ok z -> 0 <= z.
Proof. destruct ip; simpl; [discriminate|]. intros H. injection H as <-. lia. Qed.




Lemma label_count_nonneg (dims : list Z) : 0 <= label_count dims.
Proof.
  induction dims as [|d dims IH]; simpl; [lia|].
  apply Z.mul_nonneg_nonneg; lia.
Qed.

Section Construction.

Context {backend : Backend}.

(** What [__init__] stores in the table it returns. *)
Lemma init_inv (framework : pyobj) (ds : SpectrumData)
  (bs : list SpectrumData) (t : SpectrumLookup) :
  __init__ framework ds bs = Ok t ->
  framework_space framework = Some (_hilbertspace t) /\
  _sweep t = match framework with PySweep s => PySweep s | _ => PyNone end /\
  _dressed_specdata t = ds /\
  _bare_specdata_list t = bs /\
  _generate_bare_labels (_hilbertspace t) = Ok (_canonical_bare_labels t) /\
  _generate_mappings ds (_hilbertspace t) = Ok (_dressed_indices t) /\
  _out_of_sync t = false.
Proof.
  unfold __init__.
  destruct framework as [s|h| |]; simpl; try discriminate.
  - destruct (_generate_bare_labels (sweep_hilbertspace s)) eqn:E1;
      simpl; [|discriminate].
    destruct (_generate_mappings ds (sweep_hilbertspace s)) eqn:E2;
      simpl; [|discriminate].
    intros H. injection H as <-. simpl. repeat split; assumption.
  - destruct (_generate_bare_labels h) eqn:E1; simpl; [|discriminate].
    destruct (_generate_mappings ds h) eqn:E2; simpl; [|discriminate].
    intros H. injection H as <-. simpl. repeat split; assumption.
Qed.





End Construction.


(* ================================================================== *)
(** ** Shape and range of the assignment lists *)
(* ================================================================== *)

Section Mappings.

Context {backend : Backend}.




(** X6. A rectangular overlap matrix with rows but fewer columns than the
    dimension of the Hilbert space makes [_generate_single_mapping] raise
    [IndexError]. *)
Theorem generate_single_mapping_too_few_columns (ds : SpectrumData)
  (hs : HilbertSpace) (p : Z) (e : esys) :
  getitem (state_table ds) p = Ok e ->
  rectangular (convert_esys_to_ndarray e) ->
  rows (convert_esys_to_ndarray e) <> [] ->
  Z.of_nat (ncols (convert_esys_to_ndarray e)) < dimension hs ->
  _generate_single_mapping ds hs p = Raise IndexError.
Proof.
  intros He Hrect Hrows Hdim. unfold _generate_single_mapping.
  rewrite He. simpl. set (m := convert_esys_to_ndarray e) in *.
  unfold range.
  replace (Z.to_nat (dimension hs))
    with (ncols m + S (Z.to_nat (dimension hs) - S (ncols m)))%nat by lia.
  rewrite seq_app, map_app. simpl.
  apply mapM_Raise_at.
  - intros y Hy. apply in_map_iff in Hy as (b & <- & Hb). apply in_seq in Hb.
    destruct (single_assignment m b Hrect Hrows) as (pos & v & _ & Hrun);
      [lia|].
    eauto.
  - unfold column.
    destruct (Z.ltb_spec (Z.of_nat (ncols m)) (Z.of_nat (ncols m))); [lia|].
    now rewrite andb_false_r.
Qed.

Lemma generate_single_mapping_state (ds : SpectrumData) (hs : HilbertSpace)
  (p : Z) (l : list (option Z)) :
  _generate_single_mapping ds hs p = Ok l ->
  exists e, getitem (state_table ds) p = Ok e.
Proof.
  unfold _generate_single_mapping.
  destruct (getitem (state_table ds) p); simpl; [eauto|discriminate].
Qed.

(** X7. When [_generate_mappings] returns, it returns one assignment list
    per parameter index, each with one entry per bare-basis index, and the
    state table it read holds at least that many parameter values. *)
Theorem generate_mappings_shape (ds : SpectrumData) (hs : HilbertSpace)
  (indices : list (list (option Z))) :
  _generate_mappings ds hs = Ok indices ->
  Z.of_nat (length indices) = Z.max 0 (param_count ds) /\
  Forall (fun l => Z.of_nat (length l) = Z.max 0 (dimension hs)) indices /\
  Z.max 0 (param_count ds) <= Z.of_nat (length (state_table ds)).
Proof.
  unfold _generate_mappings. intros H. apply mapM_Ok_inv in H.
  pose proof (Forall2_length H) as Hlen.
  pose proof (range_length (param_count ds)) as Hr.
  split; [lia|]. split.
  - apply Forall_forall. intros l Hl.
    destruct (In_nth_error _ _ Hl) as (i & Hi).
    destruct (Forall2_nth_error_r _ _ _ H i l Hi) as (p & _ & Hp).
    now apply generate_single_mapping_length in Hp.
  - destruct (Z.le_gt_cases (param_count ds) 0) as [Hle|Hgt]; [lia|].
    assert (Hlast : nth_error (range (param_count ds))
                      (Z.to_nat (param_count ds - 1))
                    = Some (param_count ds - 1)).
    { rewrite range_nth_error by lia. f_equal. lia. }
    destruct (Forall2_nth_error_l _ _ _ H _ _ Hlast) as (l & _ & Hl).
    apply generate_single_mapping_state in Hl as (e & He).
    apply getitem_Ok_bounds in He. lia.
Qed.

End Mappings.



Lemma generate_single_mapping_too_few_columns_witness :
  _generate_single_mapping dressed_narrow space22 0 = Raise IndexError.
Proof.
  apply (@generate_single_mapping_too_few_columns rational_backend
           dressed_narrow space22 0 narrow).
  - reflexivity.
  - repeat constructor.
  - discriminate.
  - simpl. lia.
Defined.

Lemma generate_mappings_shape_witness :
  Z.of_nat (length [[Some 0; Some 1; Some 2; Some 3];
                    [Some 0; Some 0; Some 1; None]])
  = Z.max 0 (param_count dressed_sweep) /\
  Forall (fun l : list (option Z) =>
            Z.of_nat (length l) = Z.max 0 (dimension space22))
         [[Some 0; Some 1; Some 2; Some 3]; [Some 0; Some 0; Some 1; None]] /\
  Z.max 0 (param_count dressed_sweep)
  <= Z.of_nat (length (state_table dressed_sweep)).
Proof.
  apply (@generate_mappings_shape rational_backend dressed_sweep space22).
  reflexivity.
Defined.

(* ================================================================== *)
(** ** Tables built by the constructor *)
(* ================================================================== *)

Section BuiltTables.

Context {backend : Backend}.

Lemma generate_mappings_nth (ds : SpectrumData) (hs : HilbertSpace)
  (indices : list (list (option Z))) (p : Z) :
  _generate_mappings ds hs = Ok indices ->
  0 <= p < param_count ds ->
  exists l, getitem indices p = Ok l /\
            _generate_single_mapping ds hs p = Ok l.
Proof.
  unfold _generate_mappings. intros H Hp. apply mapM_Ok_inv in H.
  assert (Hr : nth_error (range (param_count ds)) (Z.to_nat p) = Some p).
  { rewrite range_nth_error by lia. f_equal. lia. }
  destruct (Forall2_nth_error_l _ _ _ H _ _ Hr) as (l & Hl & Hgen).
  exists l. split; [|exact Hgen].
  rewrite <- (Z2Nat.id p) by lia. now apply getitem_nat.
Qed.

(** On a table of [__init__] whose framework reports the number of
    canonical labels as its dimension, an in-range parameter index selects
    an assignment list as long as the canonical sequence. *)
Lemma init_selects_list (framework : pyobj) (ds : SpectrumData)
  (bs : list SpectrumData) (t : SpectrumLookup) (p : Z) :
  __init__ framework ds bs = Ok t ->
  dimension (_hilbertspace t) = Z.of_nat (length (_canonical_bare_labels t)) ->
  0 <= p < param_count ds ->
  exists l,
    getitem (_dressed_indices t) p = Ok l /\
    _generate_single_mapping ds (_hilbertspace t) p = Ok l /\
    length l = length (_canonical_bare_labels t).
Proof.
  intros Hinit Hdim Hp.
  destruct (init_inv _ _ _ _ Hinit) as (_ & _ & _ & _ & _ & Hmap & _).
  destruct (generate_mappings_nth _ _ _ _ Hmap Hp) as (l & Hl & Hgen).
  exists l. split; [exact Hl|]. split; [exact Hgen|].
  apply generate_single_mapping_length in Hgen. lia.
Qed.

Lemma bare_index_flag (self : SpectrumLookup) (flag : bool) (d : option Z)
  (p : Z) :
  outcome (bare_index (set_out_of_sync self flag) d p) =
  outcome (bare_index self d p).
Proof. now rewrite !bare_index_outcome. Qed.

Lemma dressed_index_answers (self : SpectrumLookup) (bare_labels : list Z)
  (p : Z) (l : list (option Z)) :
  getitem (_dressed_indices self) p = Ok l ->
  (length (_canonical_bare_labels self) <= length l)%nat ->
  outcome (dressed_index self bare_labels p) = Ok None \/
  exists d, In (Some d) l /\
            outcome (dressed_index self bare_labels p) = Ok (Some d).
Proof.
  intros Hl Hlen.
  destruct (in_dec (list_eq_dec Z.eq_dec) bare_labels
              (_canonical_bare_labels self)) as [Hin|Hn].
  - destruct (index_found tuple_eqb tuple_eqb_eq _ _ Hin) as (pos & _ & Hpos).
    assert (Hlt : (pos < length (_canonical_bare_labels self))%nat).
    { destruct Hpos as ((a & Ha & _) & _). apply nth_error_Some. congruence. }
    destruct (nth_error l pos) as [d|] eqn:E.
    + rewrite (dressed_index_found self bare_labels p l pos d Hl Hpos E).
      destruct d as [d|]; [right|now left].
      exists d. split; [|reflexivity]. eapply nth_error_In; eauto.
    + apply nth_error_None in E. lia.
  - left. rewrite dressed_index_outcome.
    now rewrite (index_missing tuple_eqb tuple_eqb_eq _ _ Hn).
Qed.

Lemma bare_index_answers (self : SpectrumLookup) (d : option Z) (p : Z)
  (l : list (option Z)) :
  getitem (_dressed_indices self) p = Ok l ->
  (length l <= length (_canonical_bare_labels self))%nat ->
  outcome (bare_index self d p) = Ok None \/
  exists label, In label (_canonical_bare_labels self) /\
                outcome (bare_index self d p) = Ok (Some label).
Proof.
  intros Hl Hlen.
  assert (Hdec : forall x y : option Z, {x = y} + {x <> y})
    by (decide equality; apply Z.eq_dec).
  destruct (in_dec Hdec d l) as [Hin|Hn].
  - destruct (bare_index_found self d p l Hl Hlen Hin)
      as (pos & label & _ & Hlabel & Hout).
    right. exists label. split; [|exact Hout]. eapply nth_error_In; eauto.
  - left. rewrite bare_index_outcome, Hl. simpl.
    now rewrite (index_missing entry_eqb entry_eqb_eq _ _ Hn).
Qed.

End BuiltTables.

Section TableTheorems.

Context {backend : Backend}.


Lemma run_warnings (self : SpectrumLookup) (q : query) :
  warnings (run self q) =
  (if _out_of_sync self then [out_of_sync_warning] else []) ++
  match q with
  | call_energy_bare_index _ _ =>
      if _out_of_sync self then [out_of_sync_warning] else []
  | _ => []
  end.
Proof.
  destruct q; unfold run; rewrite mmap_warnings;
    try (unfold dressed_index, bare_index, dressed_eigenstates,
           dressed_eigenenergies, energy_dressed_index, bare_eigenstates,
           bare_eigenenergies;
         rewrite check_sync_status_warnings; reflexivity).
  unfold energy_bare_index.
  rewrite check_sync_status_warnings, mbind_warnings, dressed_index_warnings.
  destruct (outcome (dressed_index self bare_tuples param_index))
    as [[d|]|e]; simpl; now rewrite app_nil_r.
Qed.

(** X9. No query on a table that [__init__] has just returned issues a
    warning. *)
Theorem fresh_table_silent (framework : pyobj) (ds : SpectrumData)
  (bs : list SpectrumData) (t : SpectrumLookup) (q : query) :
  __init__ framework ds bs = Ok t ->
  warnings (run t q) = [].
Proof.
  intros Hinit.
  destruct (init_inv _ _ _ _ Hinit) as (_ & _ & _ & _ & _ & _ & Hflag).
  rewrite run_warnings, Hflag. now destruct q.
Qed.

(** X10. On a table of [__init__] whose framework reports the number of
    canonical labels as its dimension, in sync or not, [dressed_index] and
    [bare_index] never raise for a parameter index in [0, param_count): the
    answer is a value of the table or unassigned, whatever label or dressed
    index is asked for. *)
Theorem lookups_never_raise (framework : pyobj) (ds : SpectrumData)
  (bs : list SpectrumData) (t : SpectrumLookup) (flag : bool) (p : Z)
  (bare_labels : list Z) (d : option Z) :
  __init__ framework ds bs = Ok t ->
  dimension (_hilbertspace t) = Z.of_nat (length (_canonical_bare_labels t)) ->
  0 <= p < param_count ds ->
  (exists r, outcome (dressed_index (set_out_of_sync t flag) bare_labels p)
             = Ok r) /\
  (exists r, outcome (bare_index (set_out_of_sync t flag) d p) = Ok r).
Proof.
  intros Hinit Hdim Hp.
  destruct (init_selects_list _ _ _ _ _ Hinit Hdim Hp) as (l & Hl & _ & Hlen).
  rewrite dressed_index_flag, bare_index_flag. split.
  - destruct (dressed_index_answers t bare_labels p l Hl) as [H|(x & _ & H)];
      [lia| |]; rewrite H; eauto.
  - destruct (bare_index_answers t d p l Hl) as [H|(x & _ & H)];
      [lia| |]; rewrite H; eauto.
Qed.

Lemma generate_single_mapping_row_range (ds : SpectrumData)
  (hs : HilbertSpace) (p : Z) (l : list (option Z)) (e : esys) (d : Z) :
  _generate_single_mapping ds hs p = Ok l ->
  getitem (state_table ds) p = Ok e ->
  In (Some d) l ->
  0 <= d < Z.of_nat (length (rows (convert_esys_to_ndarray e))).
Proof.
  unfold _generate_single_mapping. intros H He Hin. rewrite He in H.
  simpl in H. apply mapM_Ok_inv in H.
  destruct (In_nth_error _ _ Hin) as (b & Hb).
  destruct (Forall2_nth_error_r _ _ _ H b _ Hb) as (x & _ & Hf).
  set (m := convert_esys_to_ndarray e) in *.
  destruct (column m x) as [col|]; simpl in Hf; [|discriminate].
  destruct (argmax (map np_abs col)) as [z|] eqn:Am; simpl in Hf;
    [|discriminate].
  destruct (item m z x) as [a|] eqn:It; simpl in Hf; [|discriminate].
  destruct (Qltb (np_abs a) (1 # 2)); [discriminate|].
  injection Hf as <-. apply argmax_Ok in Am. unfold item in It.
  destruct (getitem (rows m) z) as [r|] eqn:R; simpl in It; [|discriminate].
  apply getitem_Ok_bounds in R. lia.
Qed.

(** X11. On such a table, [energy_bare_index] never raises for a
    parameter index in [0, param_count) whose row of dressed energies has an
    entry for every row of the overlap matrix: each assigned dressed index
    finds its energy. *)
Theorem energy_bare_index_never_raises (framework : pyobj)
  (ds : SpectrumData) (bs : list SpectrumData) (t : SpectrumLookup)
  (p : Z) (bare_tuples : list Z) (e : esys) (energies : list energy) :
  __init__ framework ds bs = Ok t ->
  dimension (_hilbertspace t) = Z.of_nat (length (_canonical_bare_labels t)) ->
  0 <= p < param_count ds ->
  getitem (state_table ds) p = Ok e ->
  getitem (energy_table ds) p = Ok energies ->
  (length (rows (convert_esys_to_ndarray e)) <= length energies)%nat ->
  exists r, outcome (energy_bare_index t bare_tuples p) = Ok r.
Proof.
  intros Hinit Hdim Hp He Hen Hlen.
  destruct (init_selects_list _ _ _ _ _ Hinit Hdim Hp) as (l & Hl & Hgen & Hll).
  destruct (init_inv _ _ _ _ Hinit) as (_ & _ & Hds & _).
  unfold energy_bare_index.
  rewrite check_sync_status_outcome, mbind_outcome.
  destruct (dressed_index_answers t bare_tuples p l Hl) as [H|(d & Hd & H)];
    [lia| |]; rewrite H; simpl; [eauto|].
  rewrite Hds, Hen. simpl.
  pose proof (generate_single_mapping_row_range _ _ _ _ _ _ Hgen He Hd) as Hr.
  destruct (getitem_in_range energies d) as (x & ->); [lia|].
  simpl. eauto.
Qed.

(** X12. When the assignment list selected by the parameter index has no
    repeated entry and covers the canonical sequence, the reverse round trip
    holds: [bare_index] of what [dressed_index] answers for a canonical label
    is that label. *)
Theorem bare_index_of_dressed_index (self : SpectrumLookup)
  (bare_labels : list Z) (p : Z) (l : list (option Z)) :
  getitem (_dressed_indices self) p = Ok l ->
  (length (_canonical_bare_labels self) <= length l)%nat ->
  NoDup l ->
  In bare_labels (_canonical_bare_labels self) ->
  exists d,
    outcome (dressed_index self bare_labels p) = Ok d /\
    outcome (bare_index self d p) = Ok (Some bare_labels).
Proof.
  intros Hl Hlen Hnd Hin.
  destruct (index_found tuple_eqb tuple_eqb_eq _ _ Hin) as (pos & _ & Hpos).
  destruct Hpos as ((a & Ha & <-) & Hfirst).
  assert (Hlt : (pos < length (_canonical_bare_labels self))%nat)
    by (apply nth_error_Some; congruence).
  destruct (nth_error l pos) as [d|] eqn:E;
    [|apply nth_error_None in E; lia].
  exists d. split.
  - apply (dressed_index_found self _ p l pos d Hl); [|exact E].
    split; [eauto|exact Hfirst].
  - rewrite bare_index_outcome, Hl. simpl.
    destruct (index_found entry_eqb entry_eqb_eq d l) as (pos' & -> & Hpos').
    { eapply nth_error_In; eauto. }
    destruct Hpos' as ((x & Hx & <-) & _).
    assert (pos' = pos) by (eapply NoDup_nth_error_eq; eauto). subst pos'.
    now rewrite (getitem_nat _ _ _ Ha).
Qed.

(** X13. On a table of [__init__] for a framework that lists as many
    dimensions as it has subsystems, a label that [bare_index] returns has
    one index per subsystem, each within the range of its dimension. *)
Theorem bare_index_in_ranges (framework : pyobj) (ds : SpectrumData)
  (bs : list SpectrumData) (t : SpectrumLookup) (d : option Z) (p : Z)
  (label : list Z) :
  __init__ framework ds bs = Ok t ->
  subsystem_count (_hilbertspace t)
  = Z.of_nat (length (subsystem_dims (_hilbertspace t))) ->
  outcome (bare_index t d p) = Ok (Some label) ->
  in_ranges label (subsystem_dims (_hilbertspace t)).
Proof.
  intros Hinit Hcount.
  destruct (init_inv _ _ _ _ Hinit) as (_ & _ & _ & _ & Hlab & _).
  rewrite (generate_bare_labels_product _ Hcount) in Hlab.
  injection Hlab as Hlab.
  rewrite bare_index_outcome.
  destruct (getitem (_dressed_indices t) p) as [l|e]; simpl.
  2:{ destruct e; discriminate. }
  destruct (index entry_eqb l d) as [z|e] eqn:Hidx.
  2:{ destruct e; discriminate. }
  destruct (index_Ok_inv entry_eqb entry_eqb_eq _ _ _ Hidx) as (pos & -> & _).
  destruct (getitem (_canonical_bare_labels t) (Z.of_nat pos)) as [lbl|]
    eqn:G; simpl; [|discriminate].
  intros H. injection H as ->.
  apply getitem_Ok_nonneg in G; [|lia]. apply nth_error_In in G.
  rewrite <- Hlab in G. apply cartesian_In in G.
  now apply Forall2_range_bounds.
Qed.

End TableTheorems.


Lemma fresh_table_silent_witness :
  warnings (run mixed_lookup (call_energy_bare_index [0; 0] 0)) = [].
Proof.
  apply (@fresh_table_silent rational_backend (PySpace space22) dressed_mixed
           [bare_qubit; bare_qubit] mixed_lookup).
  reflexivity.
Defined.

Lemma lookups_never_raise_witness :
  (exists r, outcome (dressed_index (set_out_of_sync mixed_lookup true)
                        [5; 5] 0) = Ok r) /\
  (exists r, outcome (bare_index (set_out_of_sync mixed_lookup true)
                        (Some 9) 0) = Ok r).
Proof.
  apply (@lookups_never_raise rational_backend (PySpace space22) dressed_mixed
           [bare_qubit; bare_qubit] mixed_lookup true 0 [5; 5] (Some 9)).
  - reflexivity.
  - reflexivity.
  - simpl. lia.
Defined.

Lemma energy_bare_index_never_raises_witness :
  exists r, outcome (energy_bare_index mixed_lookup [1; 0] 0) = Ok r.
Proof.
  apply (@energy_bare_index_never_raises rational_backend (PySpace space22)
           dressed_mixed [bare_qubit; bare_qubit] mixed_lookup 0 [1; 0]
           mixed4 [1; 2; 3; 4]%Q).
  - reflexivity.
  - reflexivity.
  - simpl. lia.
  - reflexivity.
  - reflexivity.
  - simpl. lia.
Defined.

Lemma bare_index_of_dressed_index_witness :
  exists d,
    outcome (dressed_index identity_lookup [1; 0] 0) = Ok d /\
    outcome (bare_index identity_lookup d 0) = Ok (Some [1; 0]).
Proof.
  apply (bare_index_of_dressed_index identity_lookup [1; 0] 0
           [Some 0; Some 1; Some 2; Some 3]).
  - reflexivity.
  - simpl. lia.
  - repeat constructor; simpl; intuition discriminate.
  - simpl. tauto.
Defined.

Lemma bare_index_in_ranges_witness :
  in_ranges [1; 1] (subsystem_dims (_hilbertspace mixed_lookup)).
Proof.
  apply (@bare_index_in_ranges rational_backend (PySpace space22)
           dressed_mixed [bare_qubit; bare_qubit] mixed_lookup None 0 [1; 1]).
  - reflexivity.
  - reflexivity.
  - reflexivity.
Defined.

(* ================================================================== *)
(** ** Parameter indices at and beyond the bounds *)
(* ================================================================== *)

Lemma getitem_negative {A} (l : list A) (i : Z) :
  - Z.of_nat (length l) <= i < 0 ->
  getitem l i = getitem l (i + Z.of_nat (length l)).
Proof.
  intros H. unfold getitem.
  destruct (Z.ltb_spec i 0); [|lia].
  destruct (Z.ltb_spec (i + Z.of_nat (length l)) 0); [lia|reflexivity].
Qed.

Lemma getitem_below {A} (l : list A) (i : Z) :
  i < - Z.of_nat (length l) -> getitem l i = Raise IndexError.
Proof.
  intros H. unfold getitem.
  destruct (Z.ltb_spec i 0); [|lia].
  destruct (Z.leb_spec 0 (i + Z.of_nat (length l))); [lia|reflexivity].
Qed.

Lemma getitem_outside {A} (l : list A) (i : Z) :
  i < - Z.of_nat (length l) \/ Z.of_nat (length l) <= i ->
  getitem l i = Raise IndexError.
Proof. intros [H|H]; [now apply getitem_below|now apply getitem_beyond]. Qed.

Section Bounds.

Context {backend : Backend}.

(** X14. A negative parameter index counts from the last parameter value:
    with n stored assignment lists and p in [-n, 0), [dressed_index] and
    [bare_index] answer as for p + n. *)
Theorem param_index_wraps (self : SpectrumLookup) (bare_labels : list Z)
  (d : option Z) (p : Z) :
  - Z.of_nat (length (_dressed_indices self)) <= p < 0 ->
  outcome (dressed_index self bare_labels p) =
  outcome (dressed_index self bare_labels
             (p + Z.of_nat (length (_dressed_indices self)))) /\
  outcome (bare_index self d p) =
  outcome (bare_index self d (p + Z.of_nat (length (_dressed_indices self)))).
Proof.
  intros Hp. rewrite !dressed_index_outcome, !bare_index_outcome.
  now rewrite (getitem_negative _ _ Hp).
Qed.

(** X15. [bare_index] raises [IndexError] for every parameter index outside
    [-n, n), n being the number of stored assignment lists, whatever dressed
    index is asked for; [dressed_index] does so for the labels of the
    canonical sequence. *)
Theorem param_index_outside (self : SpectrumLookup) (bare_labels : list Z)
  (d : option Z) (p : Z) :
  p < - Z.of_nat (length (_dressed_indices self)) \/
  Z.of_nat (length (_dressed_indices self)) <= p ->
  outcome (bare_index self d p) = Raise IndexError /\
  (In bare_labels (_canonical_bare_labels self) ->
   outcome (dressed_index self bare_labels p) = Raise IndexError).
Proof.
  intros Hp. split.
  - rewrite bare_index_outcome. now rewrite (getitem_outside _ _ Hp).
  - intros Hin. rewrite dressed_index_outcome.
    destruct (index_found tuple_eqb tuple_eqb_eq _ _ Hin) as (pos & -> & _).
    now rewrite (getitem_outside _ _ Hp).
Qed.

(** X16. The direct accessors do not catch anything: [dressed_eigenstates]
    raises [IndexError] for a parameter index outside the state table,
    [dressed_eigenenergies] and [energy_dressed_index] for one outside the
    energy table, and [energy_dressed_index] also for a dressed index
    outside the selected row of energies. *)
Theorem direct_access_out_of_range (self : SpectrumLookup) (p d : Z) :
  (p < - Z.of_nat (length (state_table (_dressed_specdata self))) \/
   Z.of_nat (length (state_table (_dressed_specdata self))) <= p ->
   outcome (dressed_eigenstates self p) = Raise IndexError) /\
  (p < - Z.of_nat (length (energy_table (_dressed_specdata self))) \/
   Z.of_nat (length (energy_table (_dressed_specdata self))) <= p ->
   outcome (dressed_eigenenergies self p) = Raise IndexError /\
   outcome (energy_dressed_index self d p) = Raise IndexError) /\
  (forall energies,
     outcome (dressed_eigenenergies self p) = Ok energies ->
     d < - Z.of_nat (length energies) \/ Z.of_nat (length energies) <= d ->
     outcome (energy_dressed_index self d p) = Raise IndexError).
Proof.
  unfold dressed_eigenstates, dressed_eigenenergies, energy_dressed_index.
  rewrite !check_sync_status_outcome. simpl.
  split; [|split].
  - intros Hp. now apply getitem_outside.
  - intros Hp. rewrite (getitem_outside _ _ Hp). now split.
  - intros energies -> Hd. simpl. now apply getitem_outside.
Qed.

End Bounds.

Lemma param_index_wraps_witness :
  outcome (dressed_index sweep_lookup [1; 1] (-1)) =
  outcome (dressed_index sweep_lookup [1; 1]
             (-1 + Z.of_nat (length (_dressed_indices sweep_lookup)))) /\
  outcome (bare_index sweep_lookup (Some 1) (-1)) =
  outcome (bare_index sweep_lookup (Some 1)
             (-1 + Z.of_nat (length (_dressed_indices sweep_lookup)))).
Proof.
  apply (param_index_wraps sweep_lookup [1; 1] (Some 1) (-1)).
  simpl. lia.
Defined.

Lemma param_index_outside_witness :
  outcome (bare_index sweep_lookup (Some 1) (-3)) = Raise IndexError /\
  (In [1; 1] (_canonical_bare_labels sweep_lookup) ->
   outcome (dressed_index sweep_lookup [1; 1] (-3)) = Raise IndexError).
Proof.
  apply (param_index_outside sweep_lookup [1; 1] (Some 1) (-3)).
  simpl. lia.
Defined.

Lemma direct_access_out_of_range_witness :
  outcome (dressed_eigenstates sweep_lookup 2) = Raise IndexError /\
  (outcome (dressed_eigenenergies sweep_lookup 2) = Raise IndexError /\
   outcome (energy_dressed_index sweep_lookup 0 2) = Raise IndexError) /\
  outcome (energy_dressed_index sweep_lookup 4 1) = Raise IndexError.
Proof.
  split; [|split].
  - apply (proj1 (direct_access_out_of_range sweep_lookup 2 0)).
    simpl. lia.
  - apply (proj1 (proj2 (direct_access_out_of_range sweep_lookup 2 0))).
    simpl. lia.
  - apply (proj2 (proj2 (direct_access_out_of_range sweep_lookup 1 4))
             [1; 2; 3; 5]%Q).
    + reflexivity.
    + simpl. lia.
Defined.

(* ================================================================== *)
(** ** Bare data of a swept system *)
(* ================================================================== *)

Lemma contains_In (x : QuantumSystem) (l : list QuantumSystem) :
  contains Nat.eqb x l = true <-> In x l.
Proof.
  unfold contains. rewrite existsb_exists. split.
  - intros (y & Hy & E). apply Nat.eqb_eq in E. now subst.
  - intros H. exists x. split; [exact H|apply Nat.eqb_refl].
Qed.

Lemma contains_not_In (x : QuantumSystem) (l : list QuantumSystem) :
  ~ In x l -> contains Nat.eqb x l = false.
Proof.
  intros H. destruct (contains Nat.eqb x l) eqn:E; [|reflexivity].
  apply contains_In in E. contradiction.
Qed.

Section SweptSystem.

Context {backend : Backend}.

(** X17. On a table built for a sweep, [bare_eigenenergies] finds the
    subsystem's bare data in the list given to [__init__], at the position
    the Hilbert space reports.  For a subsystem of the sweep's update list
    it returns the row of energies at the parameter index (raising what the
    access raises); for any other subsystem it returns the whole energy
    table, whatever the parameter index. *)
Theorem sweep_bare_eigenenergies (s : ParameterSweep) (ds : SpectrumData)
  (bs : list SpectrumData) (t : SpectrumLookup) (subsys : QuantumSystem)
  (p i : Z) (sd : SpectrumData) :
  __init__ (PySweep s) ds bs = Ok t ->
  hs_index (sweep_hilbertspace s) subsys = Ok i ->
  getitem bs i = Ok sd ->
  (In subsys (subsys_update_list s) ->
   outcome (bare_eigenenergies t subsys p) =
   (row <- getitem (energy_table sd) p ;; Ok (Entry row))) /\
  (~ In subsys (subsys_update_list s) ->
   outcome (bare_eigenenergies t subsys p) = Ok (Whole (energy_table sd))).
Proof.
  intros Hinit Hi Hsd.
  destruct (init_inv _ _ _ _ Hinit) as (Hsp & Hsw & _ & Hbs & _).
  simpl in Hsp. injection Hsp as Hsp.
  unfold bare_eigenenergies. rewrite check_sync_status_outcome. simpl.
  rewrite <- Hsp, Hi, Hsw, Hbs. simpl. split; intros Hin.
  - apply contains_In in Hin. now rewrite Hin, Hsd.
  - apply contains_not_In in Hin. now rewrite Hin, Hsd.
Qed.

(** X18. On a table built for a sweep, [bare_eigenstates] finds the
    subsystem's bare data in the list held by the sweep's own lookup, at the
    position the sweep reports, not in the list given to [__init__].  For a
    subsystem of the update list it returns the eigenvectors at the
    parameter index (raising what the access raises); for any other
    subsystem it returns the whole state table, whatever the parameter
    index. *)
Theorem sweep_bare_eigenstates (s : ParameterSweep) (ds : SpectrumData)
  (bs : list SpectrumData) (t : SpectrumLookup) (subsys : QuantumSystem)
  (p i : Z) (sd : SpectrumData) :
  __init__ (PySweep s) ds bs = Ok t ->
  sweep_get_subsys_index s subsys = Ok i ->
  getitem (sweep_lookup_bare_specdata_list s) i = Ok sd ->
  (In subsys (subsys_update_list s) ->
   outcome (bare_eigenstates t subsys p) =
   (e <- getitem (state_table sd) p ;; Ok (Entry e))) /\
  (~ In subsys (subsys_update_list s) ->
   outcome (bare_eigenstates t subsys p) = Ok (Whole (state_table sd))).
Proof.
  intros Hinit Hi Hsd.
  destruct (init_inv _ _ _ _ Hinit) as (_ & Hsw & _).
  unfold bare_eigenstates. rewrite check_sync_status_outcome. simpl.
  rewrite Hsw. simpl. rewrite Hi. simpl. split; intros Hin.
  - apply contains_In in Hin. now rewrite Hin, Hsd.
  - apply contains_not_In in Hin. now rewrite Hin, Hsd.
Qed.

End SweptSystem.

Lemma sweep_bare_eigenenergies_witness :
  outcome (bare_eigenenergies sweep_lookup 1%nat 1) =
  (row <- getitem (energy_table bare_swept) 1 ;; Ok (Entry row)) /\
  outcome (bare_eigenenergies sweep_lookup 0%nat 1)
  = Ok (Whole (energy_table bare_qubit)).
Proof.
  split.
  - apply (proj1 (@sweep_bare_eigenenergies rational_backend sweep22
                    dressed_sweep [bare_qubit; bare_swept] sweep_lookup
                    1%nat 1 1 bare_swept eq_refl eq_refl eq_refl)).
    simpl. tauto.
  - apply (proj2 (@sweep_bare_eigenenergies rational_backend sweep22
                    dressed_sweep [bare_qubit; bare_swept] sweep_lookup
                    0%nat 1 0 bare_qubit eq_refl eq_refl eq_refl)).
    simpl. intros [H|[]]. discriminate.
Defined.

Lemma sweep_bare_eigenstates_witness :
  outcome (bare_eigenstates sweep_lookup 1%nat 1) =
  (e <- getitem (state_table bare_swept) 1 ;; Ok (Entry e)) /\
  outcome (bare_eigenstates sweep_lookup 0%nat 1)
  = Ok (Whole (state_table bare_qubit)).
Proof.
  split.
  - apply (proj1 (@sweep_bare_eigenstates rational_backend sweep22
                    dressed_sweep [bare_qubit; bare_swept] sweep_lookup
                    1%nat 1 1 bare_swept eq_refl eq_refl eq_refl)).
    simpl. tauto.
  - apply (proj2 (@sweep_bare_eigenstates rational_backend sweep22
                    dressed_sweep [bare_qubit; bare_swept] sweep_lookup
                    0%nat 1 0 bare_qubit eq_refl eq_refl eq_refl)).
    simpl. intros [H|[]]. discriminate.
Defined.

(* ================================================================== *)
(** ** Position of a label in the canonical sequence *)
(* ================================================================== *)

Lemma nth_error_cartesian_cons (C : list (list Z)) (l : list Z) :
  forall (i j : nat) (x : Z) (t : list Z),
    nth_error l i = Some x ->
    nth_error C j = Some t ->
    nth_error (flat_map (fun x => map (cons x) C) l) (i * length C + j)
    = Some (x :: t).
Proof.
  induction l as [|y l IH]; intros [|i] j x t Hx Ht; simpl in *;
    try discriminate.
  - injection Hx as ->.
    rewrite nth_error_app1
      by (rewrite length_map; apply nth_error_Some; congruence).
    now rewrite nth_error_map, Ht.
  - rewrite nth_error_app2 by (rewrite length_map; lia).
    rewrite length_map.
    replace (length C + i * length C + j - length C)%nat
      with (i * length C + j)%nat by lia.
    now apply IH.
Qed.

Lemma in_ranges_dims_positive (t dims : list Z) :
  in_ranges t dims -> Forall (fun d => 1 <= d) dims.
Proof.
  induction 1 as [|x d t dims Hx _ IH]; constructor; [lia|exact IH].
Qed.

(** The mixed-radix value of an in-range tuple is its position in the
    nested-loop enumeration. *)
Lemma rank_position (dims t : list Z) :
  in_ranges t dims ->
  0 <= rank dims t < fold_right Z.mul 1 dims /\
  nth_error (cartesian (map range dims)) (Z.to_nat (rank dims t)) = Some t.
Proof.
  induction 1 as [|x d t dims Hx Ht IH]; simpl; [split; [lia|reflexivity]|].
  destruct IH as (Hr & Hnth).
  set (P := fold_right Z.mul 1 dims) in *.
  assert (HP : Z.of_nat (length (cartesian (map range dims))) = P).
  { rewrite cartesian_length.
    apply ranges_length_product, (in_ranges_dims_positive t), Ht. }
  split; [nia|].
  replace (Z.to_nat (x * P + rank dims t))
    with (Z.to_nat x * length (cartesian (map range dims))
          + Z.to_nat (rank dims t))%nat by nia.
  apply nth_error_cartesian_cons; [|exact Hnth].
  rewrite range_nth_error by lia. f_equal. lia.
Qed.

Lemma rbind_Ok_id {A} (c : result A) : (a <- c ;; Ok a) = c.
Proof. now destruct c. Qed.

Section LabelPosition.

Context {backend : Backend}.

(** X19. On a table of [__init__] for a framework that lists as many
    dimensions as it has subsystems, [dressed_index] answers a label whose
    indices are within the ranges of the dimensions with the entry of the
    selected assignment list at the mixed-radix value of the label (last
    index least significant), a position below the product of the
    dimensions. *)
Theorem dressed_index_at_rank (framework : pyobj) (ds : SpectrumData)
  (bs : list SpectrumData) (t : SpectrumLookup) (bare_labels : list Z)
  (p : Z) :
  __init__ framework ds bs = Ok t ->
  subsystem_count (_hilbertspace t)
  = Z.of_nat (length (subsystem_dims (_hilbertspace t))) ->
  in_ranges bare_labels (subsystem_dims (_hilbertspace t)) ->
  0 <= rank (subsystem_dims (_hilbertspace t)) bare_labels
    < fold_right Z.mul 1 (subsystem_dims (_hilbertspace t)) /\
  outcome (dressed_index t bare_labels p) =
  (l <- getitem (_dressed_indices t) p ;;
   getitem l (rank (subsystem_dims (_hilbertspace t)) bare_labels)).
Proof.
  intros Hinit Hcount Hin.
  destruct (init_inv _ _ _ _ Hinit) as (_ & _ & _ & _ & Hlab & _).
  rewrite (generate_bare_labels_product _ Hcount) in Hlab.
  injection Hlab as Hlab.
  destruct (rank_position _ _ Hin) as (Hr & Hnth).
  split; [exact Hr|]. rewrite Hlab in Hnth.
  rewrite dressed_index_outcome.
  destruct (index_found tuple_eqb tuple_eqb_eq bare_labels
              (_canonical_bare_labels t)) as (pos & -> & (a & Ha & <-) & _).
  { eapply nth_error_In; eauto. }
  pose proof (NoDup_nth_error_eq _ _ _ _ (init_NoDup _ _ _ _ Hinit) Ha Hnth)
    as ->.
  rewrite Z2Nat.id by lia.
  destruct (getitem (_dressed_indices t) p) as [l|]; simpl; [|reflexivity].
  apply rbind_Ok_id.
Qed.

End LabelPosition.

Lemma dressed_index_at_rank_witness :
  0 <= rank (subsystem_dims (_hilbertspace mixed_lookup)) [1; 0]
    < fold_right Z.mul 1 (subsystem_dims (_hilbertspace mixed_lookup)) /\
  outcome (dressed_index mixed_lookup [1; 0] 0) =
  (l <- getitem (_dressed_indices mixed_lookup) 0 ;;
   getitem l (rank (subsystem_dims (_hilbertspace mixed_lookup)) [1; 0])).
Proof.
  apply (@dressed_index_at_rank rational_backend (PySpace space22)
           dressed_mixed [bare_qubit; bare_qubit] mixed_lookup [1; 0] 0).
  - reflexivity.
  - reflexivity.
  - repeat constructor; simpl; lia.
Defined.

(* ================================================================== *)
(** ** The optional list of [shared_lookup_bare_eigenstates] *)
(* ================================================================== *)

Section SharedLookup.

Context {backend : Backend}.

(** X20. The default [bare_specdata_list=None] of
    [shared_lookup_bare_eigenstates] never yields a result for a
    [HilbertSpace]; for a sweep, leaving the list out or passing an empty
    list both read the list of the sweep's own lookup. *)
Theorem shared_lookup_default_list (p : Z) (subsys : QuantumSystem) :
  (forall (h : HilbertSpace) (r : table_or_entry esys),
     shared_lookup_bare_eigenstates (PySpace h) p subsys None <> Ok r) /\
  (forall s : ParameterSweep,
     shared_lookup_bare_eigenstates (PySweep s) p subsys None =
     shared_lookup_bare_eigenstates (PySweep s) p subsys
       (Some (sweep_lookup_bare_specdata_list s)) /\
     shared_lookup_bare_eigenstates (PySweep s) p subsys (Some []) =
     shared_lookup_bare_eigenstates (PySweep s) p subsys
       (Some (sweep_lookup_bare_specdata_list s))).
Proof.
  split.
  - intros h r. simpl.
    destruct (hs_get_subsys_index h subsys); simpl; discriminate.
  - intros s. simpl.
    destruct (sweep_lookup_bare_specdata_list s); split; reflexivity.
Qed.

End SharedLookup.
